(** * BayesianAstronomy: the Metropolis-Hastings sampler and the radial-velocity model

    A shallow embedding of the two numerical notebooks of the repository:

    - [Solutions-04.ipynb]: [model], [ln_likelihood], [ln_prior],
      [ln_posterior] and the sampler [run_mcmc];
    - [05-Radial-Velocity.ipynb]: [compute_E], [radial_velocity],
      [log_likelihood], and the parameter ranges [theta_lim] that
      [log_prior] tests.

    Number model.  A NumPy [float64] of the sampler is an extended real
    ([npfloat]): a real number, or one of the IEEE specials [+inf], [-inf]
    and [NaN], with the IEEE rules for the specials.  Rounding, overflow
    and the sign of zero are not modelled.  The radial-velocity notebook is
    modelled on the real numbers themselves, with the total functions of
    the real-number library ([x / 0], [sqrt] and [ln] of a negative number
    have their conventional values there); the theorems that need a
    parameter in its domain say so.  [scipy.optimize.brentq] is a parameter
    of that model.  The range test of [log_prior] is modelled a second
    time on float64 vectors, where an infinite or [NaN] entry matters.

    Errors.  A Python exception is [None]; a call that returns [v] is
    [Some v].

    Randomness.  [np.random.randn] and [np.random.rand] read a global
    generator; here the draws of step [i] are given by an explicit stream
    ([rng]), so a run is a function of its inputs and of the stream. *)

From Stdlib Require Import Reals Lra Lia List.
From stdpp Require Import base list option.

Open Scope R_scope.

(** ** float64 as an extended real *)

Module Float.

Inductive npfloat : Type :=
| Fin (x : R)
| PInf
| NInf
| NaN.

Definition is_finite (a : npfloat) : Prop :=
  match a with Fin _ => True | _ => False end.

Definition fneg (a : npfloat) : npfloat :=
  match a with
  | Fin x => Fin (- x)
  | PInf => NInf
  | NInf => PInf
  | NaN => NaN
  end.

(** [a + b]: [inf + -inf] is [NaN]. *)
Definition fadd (a b : npfloat) : npfloat :=
  match a, b with
  | NaN, _ | _, NaN => NaN
  | Fin x, Fin y => Fin (x + y)
  | PInf, NInf | NInf, PInf => NaN
  | PInf, _ | _, PInf => PInf
  | NInf, _ | _, NInf => NInf
  end.

(** [a - b]: [inf - inf] and [-inf - -inf] are [NaN]. *)
Definition fsub (a b : npfloat) : npfloat := fadd a (fneg b).

(** [x * i] for a real [x] and an infinity [i]: the sign of [x] decides,
    and [0 * inf] is [NaN]. *)
Definition scale_inf (x : R) (i : npfloat) : npfloat :=
  if Rlt_dec 0 x then i
  else if Rlt_dec x 0 then fneg i
  else NaN.

Definition fmul (a b : npfloat) : npfloat :=
  match a, b with
  | NaN, _ | _, NaN => NaN
  | Fin x, Fin y => Fin (x * y)
  | Fin x, i => scale_inf x i
  | i, Fin y => scale_inf y i
  | PInf, PInf | NInf, NInf => PInf
  | PInf, NInf | NInf, PInf => NInf
  end.

(** [a / b] with NumPy's rules: [x / 0] is an infinity of the sign of [x]
    (and [0 / 0] is [NaN]), [x / inf] is [0], [inf / inf] is [NaN]. *)
Definition fdiv (a b : npfloat) : npfloat :=
  match a, b with
  | NaN, _ | _, NaN => NaN
  | Fin x, Fin y => if Req_dec_T y 0 then scale_inf x PInf else Fin (x / y)
  | Fin _, _ => Fin 0
  | i, Fin y => if Rlt_dec y 0 then fneg i else i
  | _, _ => NaN
  end.

(** [np.log]: [log 0 = -inf], [log] of a negative number is [NaN]. *)
Definition flog (a : npfloat) : npfloat :=
  match a with
  | Fin x => if Rlt_dec 0 x then Fin (ln x)
             else if Rlt_dec x 0 then NaN
             else NInf
  | PInf => PInf
  | NInf => NaN
  | NaN => NaN
  end.

(** [a > b]: every comparison with [NaN] is false. *)
Definition fgtb (a b : npfloat) : bool :=
  match a, b with
  | Fin x, Fin y => if Rlt_dec y x then true else false
  | PInf, Fin _ | PInf, NInf | Fin _, NInf => true
  | _, _ => false
  end.

(** [np.sum] of a one-dimensional array. *)
Definition fsum (xs : list npfloat) : npfloat := foldr fadd (Fin 0) xs.

End Float.

(** ** NumPy values: scalars, one-dimensional arrays, broadcasting *)

Module Numpy.

Inductive nd (A : Type) : Type :=
| Scalar (x : A)
| Array (xs : list A).
Arguments Scalar {A} x.
Arguments Array {A} xs.

(** A unary ufunc applies element-wise. *)
Definition nd_map {A B : Type} (f : A -> B) (a : nd A) : nd B :=
  match a with
  | Scalar x => Scalar (f x)
  | Array xs => Array (map f xs)
  end.

(** A binary ufunc under NumPy's broadcasting: a scalar or an array of
    length one is stretched; two arrays of other, different lengths raise
    [ValueError]. *)
Definition broadcast2 {A B C : Type} (op : A -> B -> C)
    (a : nd A) (b : nd B) : option (nd C) :=
  match a, b with
  | Scalar x, Scalar y => Some (Scalar (op x y))
  | Scalar x, Array ys => Some (Array (map (op x) ys))
  | Array xs, Scalar y => Some (Array (map (fun x => op x y) xs))
  | Array xs, Array ys =>
      if decide (length xs = length ys) then Some (Array (zip_with op xs ys))
      else match xs, ys with
           | [x], _ => Some (Array (map (op x) ys))
           | _, [y] => Some (Array (map (fun x => op x y) xs))
           | _, _ => None
           end
  end.

(** [row[:] = v] for a row of [n] cells: [v] is broadcast to length [n]. *)
Definition broadcast_to {A : Type} (n : nat) (v : nd A) : option (list A) :=
  match v with
  | Scalar x => Some (replicate n x)
  | Array xs =>
      if decide (length xs = n) then Some xs
      else match xs with
           | [x] => Some (replicate n x)
           | _ => None
           end
  end.

(** [a[i] = v]: [IndexError] when [i] is out of range. *)
Definition set_item {A : Type} (a : list A) (i : nat) (v : A) : option (list A) :=
  if decide (i < length a)%nat then Some (<[i := v]> a) else None.

(** [np.zeros(n)] and [np.zeros((n, m))]. *)
Definition zeros {A : Type} (zero : A) (n : nat) : list A := replicate n zero.
Definition zeros2 {A : Type} (zero : A) (n m : nat) : list (list A) :=
  replicate n (replicate m zero).

End Numpy.

(** ** Solutions-04.ipynb: the straight-line model and the sampler *)

Module Sampler.
Import Float Numpy.

(** The values a call can return: arrays and tuples. *)
#[warnings="-register-all"]
Inductive pyval : Type :=
| PyArray1 (xs : list npfloat)
| PyArray2 (rows : list (list npfloat))
| PyTuple (items : list pyval).

(** The stream behind [np.random]: [normal g i j] is the [j]-th standard
    normal draw of step [i], [uniform g i] the uniform draw of step [i]. *)
Record rng : Type := Rng {
  normal : nat -> nat -> R;
  uniform : nat -> R
}.

(** [np.random.randn(ndim)] at step [i]. *)
Definition randn (g : rng) (i ndim : nat) : list npfloat :=
  map (fun j => Fin (normal g i j)) (seq 0 ndim).

(** [np.random.rand()] at step [i]. *)
Definition rand (g : rng) (i : nat) : npfloat := Fin (uniform g i).

(** [rand] draws from the half-open interval [[0, 1)]. *)
Definition unit_interval (r : R) : Prop := 0 <= r < 1.

Definition nd_sum (a : nd npfloat) : npfloat :=
  match a with
  | Scalar x => x
  | Array xs => fsum xs
  end.

(** [def model(theta, x): return theta[0] + theta[1] * x] *)
Definition model (theta : list npfloat) (x : nd npfloat) : option (nd npfloat) :=
  t0 ← theta !! 0%nat;
  t1 ← theta !! 1%nat;
  p ← broadcast2 fmul (Scalar t1) x;
  broadcast2 fadd (Scalar t0) p.

(** [def ln_likelihood(theta, x, y, dy):
      return -0.5 * np.sum(np.log(2 * np.pi * dy ** 2)
                           + ((y - model(theta, x)) / dy) ** 2)]
    called as [ln_likelihood(theta, *args)]: [args] must hold exactly the
    three data arrays. *)
Definition ln_likelihood (theta : list npfloat) (args : list (nd npfloat))
    : option npfloat :=
  match args with
  | [x; y; dy] =>
      let norm := nd_map flog (nd_map (fmul (Fin (2 * PI)))
                                (nd_map (fun d => fmul d d) dy)) in
      m ← model theta x;
      res ← broadcast2 fsub y m;
      q ← broadcast2 fdiv res dy;
      s ← broadcast2 fadd norm (nd_map (fun z => fmul z z) q);
      Some (fmul (Fin (-0.5)) (nd_sum s))
  | _ => None
  end.

(** [def ln_prior(theta): return 0] *)
Definition ln_prior (theta : list npfloat) : npfloat := Fin 0.

(** [def ln_posterior(theta, x, y, dy):
      return ln_prior(theta) + ln_likelihood(theta, x, y, dy)] *)
Definition ln_posterior (theta : list npfloat) (args : list (nd npfloat))
    : option npfloat :=
  match args with
  | [x; y; dy] => l ← ln_likelihood theta [x; y; dy]; Some (fadd (ln_prior theta) l)
  | _ => None
  end.

(** The two arrays of [run_mcmc]. *)
Record state : Type := State {
  chain : list (list npfloat);
  log_likes : list npfloat
}.

(** [for i in idx: st = body(i, st)], stopping at the first exception. *)
Fixpoint for_range (body : nat -> state -> option state) (idx : list nat)
    (st : state) : option state :=
  match idx with
  | [] => Some st
  | i :: idx' => st' ← body i st; for_range body idx' st'
  end.

Section run_mcmc.

(** The arguments of [run_mcmc(ln_posterior, nsteps, ndim, theta0,
    stepsize, args=())]; [ln_posterior] is any callable. *)
Variable ln_posterior : list npfloat -> list (nd npfloat) -> option npfloat.
Variables nsteps ndim : nat.
Variable theta0 : list npfloat.
Variable stepsize : nd npfloat.
Variable args : list (nd npfloat).
Variable g : rng.

(** Lines 246-252: allocation and the first entries. *)
Definition mcmc_init : option state :=
  let chain := zeros2 (Fin 0) nsteps ndim in
  row0 ← broadcast_to ndim (Array theta0);
  chain ← set_item chain 0 row0;
  let log_likes := zeros (Fin 0) nsteps in
  c0 ← chain !! 0%nat;
  l0 ← ln_posterior c0 args;
  log_likes ← set_item log_likes 0 l0;
  Some (State chain log_likes).

(** Line 259: [theta_new = chain[i - 1] + stepsize * np.random.randn(ndim)]. *)
Definition propose (i : nat) (prev : list npfloat) : option (nd npfloat) :=
  dz ← broadcast2 fmul stepsize (Array (randn g i ndim));
  broadcast2 fadd (Array prev) dz.

(** Line 274: [log_p_accept > np.log(r)] with
    [log_p_accept = log_like_new - log_likes[i - 1]]. *)
Definition accepts (log_like_new prev_log : npfloat) (r : npfloat) : bool :=
  fgtb (fsub log_like_new prev_log) (flog r).

(** Lines 255-279: the body of the loop.  The candidate's value is computed
    by the notebook's [ln_likelihood], as line 262 has it. *)
Definition mcmc_step (i : nat) (st : state) : option state :=
  prev ← chain st !! (i - 1)%nat;
  theta_new ← propose i prev;
  match theta_new with
  | Scalar _ => None
  | Array th =>
      log_like_new ← ln_likelihood th args;
      prev_log ← log_likes st !! (i - 1)%nat;
      let r := rand g i in
      if accepts log_like_new prev_log r then
        row ← broadcast_to ndim (Array th);
        c ← set_item (chain st) i row;
        l ← set_item (log_likes st) i log_like_new;
        Some (State c l)
      else
        c ← set_item (chain st) i prev;
        l ← set_item (log_likes st) i prev_log;
        Some (State c l)
  end.

(** The state after the first [k] passes of [for i in range(1, nsteps)]. *)
Definition mcmc_iter (k : nat) : option state :=
  st0 ← mcmc_init; for_range mcmc_step (seq 1 k) st0.

(** The state when the loop ends. *)
Definition mcmc_final : option state := mcmc_iter (nsteps - 1).

(** [run_mcmc]: line 281 returns [chain]. *)
Definition run_mcmc : option pyval :=
  st ← mcmc_final; Some (PyArray2 (chain st)).

(** *** Predicates on runs *)

(** Both arrays have [nsteps] entries and every row of the chain has
    [ndim] cells. *)
Definition shape (st : state) : Prop :=
  length (chain st) = nsteps /\ length (log_likes st) = nsteps /\
  Forall (fun row => length row = ndim) (chain st).

(** What pass [i] of the loop leaves in entry [i] of the arrays [c'] and
    [l'], given entry [i - 1] of the arrays [c] and [l] it reads. *)
Definition step_outcome (i : nat)
    (c : list (list npfloat)) (l : list npfloat)
    (c' : list (list npfloat)) (l' : list npfloat) : Prop :=
  exists (prev th : list npfloat) (new old : npfloat),
    c !! (i - 1)%nat = Some prev /\
    propose i prev = Some (Array th) /\
    ln_likelihood th args = Some new /\
    l !! (i - 1)%nat = Some old /\
    if accepts new old (rand g i)
    then c' !! i = Some th /\ l' !! i = Some new
    else c' !! i = Some prev /\ l' !! i = Some old.

(** A step size that broadcasts against [np.random.randn(ndim)] into a row:
    a scalar, or an array of [ndim] entries. *)
Definition stepsize_fits : Prop :=
  match stepsize with
  | Scalar _ => True
  | Array ss => length ss = ndim
  end.

(** [ln_likelihood] returns on every candidate of [ndim] entries. *)
Definition likelihood_defined : Prop :=
  forall th : list npfloat, length th = ndim -> is_Some (ln_likelihood th args).

End run_mcmc.

End Sampler.

(** ** 05-Radial-Velocity.ipynb: Kepler's equation and the forward model *)

Module RadialVelocity.
Import Numpy.

(** The type of [scipy.optimize.brentq(f, a, b)]: a root of [f] in the
    bracket [[a, b]], or an exception. *)
Definition root_finder : Type := (R -> R) -> R -> R -> option R.

(** Modelled from the spec: the bracketed root-finder.  SciPy's [brentq] is
    not part of the repository; section 4.2 of the specification asks of it
    that, on a bracket whose end values do not have the same strict sign,
    it returns a point of the bracket within the absolute tolerance [tol]
    of a root.  The function is taken continuous, as Kepler's is. *)
Definition solver_contract (tol : R) (solve : root_finder) : Prop :=
  forall (f : R -> R) (a b : R),
    continuity f -> a <= b -> f a * f b <= 0 ->
    exists x0 : R,
      solve f a b = Some x0 /\ a <= x0 <= b /\
      exists x : R, a <= x <= b /\ f x = 0 /\ Rabs (x0 - x) <= tol.

(** A reference bracketing solver, plain bisection: [bisect n] halves the
    bracket [n] times and returns the midpoint of what is left. *)
Fixpoint bisect (n : nat) (f : R -> R) (a b : R) : R :=
  let m := (a + b) / 2 in
  match n with
  | O => m
  | S n' => if Rle_dec (f a * f m) 0 then bisect n' f a m else bisect n' f m b
  end.

(** Bisection behind the bracket test of [brentq], which raises
    [ValueError] when [f(a) * f(b) > 0]. *)
Definition bisection_steps (n : nat) : root_finder :=
  fun f a b => if Rlt_dec 0 (f a * f b) then None else Some (bisect n f a b).

(** Bisection run long enough for the tolerance [tol]. *)
Definition bisection (tol : R) : root_finder :=
  fun f a b => bisection_steps (Z.to_nat (up ((b - a) / tol))) f a b.

(** [np.arctan2(y, x)]: the angle of the point [(x, y)], in [(-pi, pi]]. *)
Definition arctan2 (y x : R) : R :=
  if Rlt_dec 0 x then atan (y / x)
  else if Rlt_dec x 0 then
    if Rle_dec 0 y then atan (y / x) + PI else atan (y / x) - PI
  else if Rlt_dec 0 y then PI / 2
  else if Rlt_dec y 0 then - (PI / 2)
  else 0.

(** [x % 1] in exact arithmetic: the fractional part, in [[0, 1)].  On
    floats the result is rounded and can be [1] itself (for a tiny
    negative [x]); rounding is not modelled. *)
Definition mod1 (x : R) : R := frac_part x.

(** [np.sum]. *)
Definition nd_sum (a : nd R) : R :=
  match a with
  | Scalar x => x
  | Array xs => foldr Rplus 0 xs
  end.

(** [np.vectorize(pyfunc)] for a function of two arguments: the arguments
    are broadcast and [pyfunc] is called on each pair.  Without [otypes],
    [np.vectorize] raises [ValueError] on an input of size 0. *)
Definition np_vectorize (pyfunc : R -> R -> option R) (a b : nd R)
    : option (nd R) :=
  ab ← broadcast2 pair a b;
  match ab with
  | Scalar (x, y) => v ← pyfunc x y; Some (Scalar v)
  | Array [] => None
  | Array xys => vs ← mapM (fun xy => pyfunc xy.1 xy.2) xys; Some (Array vs)
  end.

Section model.

(** [scipy.optimize.brentq]. *)
Variable brentq : root_finder.

(** [f = lambda E, M=M, e=e: E - e * np.sin(E) - M] *)
Definition kepler (M e : R) : R -> R := fun E => E - e * sin E - M.

(** The body of [compute_E]: [optimize.brentq(f, 0, 2 * np.pi)]. *)
Definition compute_E_body (M e : R) : option R :=
  brentq (kepler M e) 0 (2 * PI).

(** [@np.vectorize def compute_E(M, e)]. *)
Definition compute_E : nd R -> nd R -> option (nd R) :=
  np_vectorize compute_E_body.

(** [def radial_velocity(t, theta)]; [theta[:6]] must unpack into six
    names, so a shorter [theta] raises [ValueError]. *)
Definition radial_velocity (t : nd R) (theta : list R) : option (nd R) :=
  match theta with
  | T :: e :: K :: V :: omega :: chi :: _ =>
      (* M = 2 * np.pi * ((t / T + chi) % 1) *)
      let M := nd_map (fun x => 2 * PI * mod1 (x / T + chi)) t in
      (* E = compute_E(M, e) *)
      E ← compute_E M (Scalar e);
      (* f = 2 * np.arctan2(np.sqrt(1 + e) * np.sin(E / 2),
                            np.sqrt(1 - e) * np.cos(E / 2)) *)
      a ← broadcast2 arctan2
            (nd_map (fun x => sqrt (1 + e) * sin (x / 2)) E)
            (nd_map (fun x => sqrt (1 - e) * cos (x / 2)) E);
      let f := nd_map (fun x => 2 * x) a in
      (* return V - K * (np.sin(f + omega) + e * np.sin(omega)) *)
      Some (nd_map (fun x => V - K * (sin (x + omega) + e * sin omega)) f)
  | _ => None
  end.

(** The forward model at one time: [radial_velocity] called on a scalar. *)
Definition radial_velocity_at (theta : list R) (t : R) : option R :=
  match radial_velocity (Scalar t) theta with
  | Some (Scalar v) => Some v
  | _ => None
  end.

(** [def log_likelihood(theta, t, rv, rv_err):
      sq_err = rv_err ** 2 + theta[6] ** 2
      rv_model = radial_velocity(t, theta)
      return -0.5 * np.sum(np.log(sq_err) + (rv - rv_model) ** 2 / sq_err)] *)
Definition log_likelihood (theta : list R) (t rv rv_err : nd R) : option R :=
  s ← theta !! 6%nat;
  let sq_err := nd_map (fun d => d ^ 2 + s ^ 2) rv_err in
  rv_model ← radial_velocity t theta;
  resid ← broadcast2 Rminus rv rv_model;
  quot ← broadcast2 Rdiv (nd_map (fun d => d ^ 2) resid) sq_err;
  terms ← broadcast2 Rplus (nd_map ln sq_err) quot;
  Some (-0.5 * nd_sum terms).

End model.

(** [theta_lim]: the admissible range of each of the seven parameters
    [T, e, K, V, omega, chi, s]; [log_prior] rejects a vector with a
    component below its lower or above its upper limit. *)
Definition theta_lim : list (R * R) :=
  [ (0.2, 2000); (0, 1); (0.01, 2000); (-2000, 2000);
    (0, 2 * PI); (0, 1); (0.001, 100) ].

(** [theta] has seven components, each within its limits. *)
Definition in_range (theta : list R) : Prop :=
  Forall2 (fun x lim => lim.1 <= x <= lim.2) theta theta_lim.

(** Lines 186-190 for one eccentric anomaly [E]. *)
Definition velocity_from (e K V omega : R) (E : R) : R :=
  V - K * (sin (2 * arctan2 (sqrt (1 + e) * sin (E / 2))
                            (sqrt (1 - e) * cos (E / 2)) + omega)
           + e * sin omega).

(** Line 180 for one time [t]. *)
Definition mean_anomaly (T chi : R) (t : R) : R := 2 * PI * mod1 (t / T + chi).

(** The model's velocity under bisection with [n] halvings. *)
Definition bisection_velocity (n : nat) (T e K V omega chi : R) (t : R) : R :=
  velocity_from e K V omega
    (bisect n (kepler (mean_anomaly T chi t) e) 0 (2 * PI)).

(** One observation: time, measured velocity, reported uncertainty. *)
Record observation : Type := Obs {
  obs_t : R;
  obs_y : R;
  obs_sigma : R
}.

(** The summand of line 311 for one observation. *)
Definition likelihood_term (s : R) (v : R -> R) (o : observation) : R :=
  ln ((obs_sigma o) ^ 2 + s ^ 2)
  + (obs_y o - v (obs_t o)) ^ 2 / ((obs_sigma o) ^ 2 + s ^ 2).

(** The log-likelihood as the specification words it: the sum over the
    points of [-1/2 * (ln (2 pi (sigma_i^2 + s^2))
                       + (y_i - v_i)^2 / (sigma_i^2 + s^2))],
    where [v_i] is the model's velocity at [t_i]. *)
Definition spec_log_likelihood (s : R) (v : R -> R) (obs : list observation) : R :=
  foldr Rplus 0
    (map (fun o =>
            - (1 / 2) * (ln (2 * PI * ((obs_sigma o) ^ 2 + s ^ 2))
                         + (obs_y o - v (obs_t o)) ^ 2
                           / ((obs_sigma o) ^ 2 + s ^ 2)))
         obs).

(** The same sum without the factor [2 pi] under the logarithm: the sum
    of [-1/2] times the summands of line 311. *)
Definition code_log_likelihood (s : R) (v : R -> R) (obs : list observation) : R :=
  foldr Rplus 0
    (map (fun o =>
            - (1 / 2) * (ln ((obs_sigma o) ^ 2 + s ^ 2)
                         + (obs_y o - v (obs_t o)) ^ 2
                           / ((obs_sigma o) ^ 2 + s ^ 2)))
         obs).

End RadialVelocity.

(** ** Sample inputs *)

Module Examples.
Import Float Numpy Sampler.

(** One data point [(x, y, dy)], passed as [args = (x, y, dy)]. *)
Definition one_point (x y dy : npfloat) : list (nd npfloat) :=
  [Array [x]; Array [y]; Array [dy]].

(** Two data points of the straight line [y = 2 + 0.5 x], [dy = 2]. *)
Definition line_data : list (nd npfloat) :=
  [Array [Fin 0; Fin 1]; Array [Fin 2; Fin 2.5]; Array [Fin 2; Fin 2]].

(** A stream whose normal draws are all [1] and whose uniform draws are
    all [1/2]. *)
Definition steady_rng : rng := Rng (fun _ _ => 1) (fun _ => 1 / 2).

(** A stream whose uniform draws are all [0]. *)
Definition zero_rng : rng := Rng (fun _ _ => 1) (fun _ => 0).

(** A log-posterior with a prior: the intercept [theta[0]] must not exceed
    [1/2]; outside this support the value is [-inf], inside it is the
    notebook's [ln_posterior]. *)
Definition supported_posterior (theta : list npfloat) (args : list (nd npfloat))
    : option npfloat :=
  match theta with
  | Fin b :: _ => if Rle_dec b (1 / 2) then ln_posterior theta args else Some NInf
  | _ => Some NInf
  end.

(** [theta_sim] of the radial-velocity notebook:
    [params(T=700, e=0.38, K=60, V=12, omega=3.10, chi=0.67, s=1)]. *)
Definition theta_sim : list R := [700; 0.38; 60; 12; 3.10; 0.67; 1].

End Examples.

(** ** Solutions-04.ipynb: the synthetic data *)

Module MakeData.
Import Float Numpy Sampler.

(** [np.random.RandomState(rseed)]: the uniform draws and the normal draws
    the generator gives, in the order they are taken. *)
Record random_state : Type := RandomState {
  rs_uniform : nat -> R;
  rs_normal : nat -> R
}.

(** A data point of finite values: abscissa, ordinate, uncertainty. *)
Record point : Type := Point {
  px : R;
  py : R;
  pdy : R
}.

(** [rand.rand(n)] and [rand.randn(n)]. *)
Definition rs_rand (rand : random_state) (n : nat) : list npfloat :=
  map (fun j => Fin (rs_uniform rand j)) (seq 0 n).
Definition rs_randn (rand : random_state) (n : nat) : list npfloat :=
  map (fun j => Fin (rs_normal rand j)) (seq 0 n).

(** [np.ones_like(x)]. *)
Definition ones_like (x : list npfloat) : list npfloat := map (fun _ => Fin 1) x.

Section make_data.

(** The constructor [np.random.RandomState]. *)
Variable np_RandomState : nat -> random_state.

(** [def make_data(intercept, slope, N=20, dy=2, rseed=42):
      rand = np.random.RandomState(rseed)
      x = 100 * rand.rand(20)
      y = intercept + slope * x
      y += dy * rand.randn(20)
      return x, y, dy * np.ones_like(x)]
    The two arrays added in place both have 20 entries. *)
Definition make_data (intercept slope : npfloat) (N : nat) (dy : npfloat)
    (rseed : nat) : list npfloat * list npfloat * list npfloat :=
  let rand := np_RandomState rseed in
  let x := map (fmul (Fin 100)) (rs_rand rand 20) in
  let y := map (fadd intercept) (map (fmul slope) x) in
  let y := zip_with fadd y (map (fmul dy) (rs_randn rand 20)) in
  (x, y, map (fmul dy) (ones_like x)).

(** The tuple [(x, y, dy)] as it is passed on: [args = (x, y, dy)]. *)
Definition data_args (d : list npfloat * list npfloat * list npfloat)
    : list (nd npfloat) :=
  [Array d.1.1; Array d.1.2; Array d.2].

(** The [j]-th point [make_data] returns, for finite arguments. *)
Definition made_point (a b dy : R) (rseed : nat) (j : nat) : point :=
  Point (100 * rs_uniform (np_RandomState rseed) j)
        (a + b * (100 * rs_uniform (np_RandomState rseed) j)
         + dy * rs_normal (np_RandomState rseed) j)
        (dy * 1).

End make_data.

(** The data arrays [(x, y, dy)] of a list of points. *)
Definition point_args (pts : list point) : list (nd npfloat) :=
  [Array (map (fun p => Fin (px p)) pts);
   Array (map (fun p => Fin (py p)) pts);
   Array (map (fun p => Fin (pdy p)) pts)].

(** The summand of [ln_likelihood] at one point, for the line of
    intercept [b] and slope [m]. *)
Definition gauss_term (b m : R) (p : point) : R :=
  ln (2 * PI * (pdy p) ^ 2) + ((py p - (b + m * px p)) / pdy p) ^ 2.

(** The same summand as [ln_likelihood] computes it, in floats. *)
Definition float_term (b m : npfloat) (p : point) : npfloat :=
  fadd (flog (fmul (Fin (2 * PI)) (fmul (Fin (pdy p)) (Fin (pdy p)))))
       (fmul (fdiv (fsub (Fin (py p)) (fadd b (fmul m (Fin (px p))))) (Fin (pdy p)))
             (fdiv (fsub (Fin (py p)) (fadd b (fmul m (Fin (px p))))) (Fin (pdy p)))).

(** A generator whose draws are all [1/2], whatever the seed. *)
Definition half_state : nat -> random_state :=
  fun _ => RandomState (fun _ => 1 / 2) (fun _ => 1 / 2).

End MakeData.

(** ** 05-Radial-Velocity.ipynb: the prior and the posterior *)

Module Posterior.
Import Float Numpy RadialVelocity.

(** [theta_min, theta_max = map(np.array, zip( *theta_lim))] *)
Definition theta_min : list R := map fst theta_lim.
Definition theta_max : list R := map snd theta_lim.

(** [a < b] and [a > b] on real numbers. *)
Definition Rltb (a b : R) : bool := if Rlt_dec a b then true else false.
Definition Rgtb (a b : R) : bool := if Rlt_dec b a then true else false.

(** [np.any]. *)
Definition np_any (a : nd bool) : bool :=
  match a with
  | Scalar b => b
  | Array bs => existsb (fun b : bool => b) bs
  end.

(** [theta[[i, j, k]]]: [IndexError] when an index is out of range. *)
Definition take_indices (theta : list R) (idx : list nat) : option (list R) :=
  mapM (fun i => theta !! i) idx.

(** On a vector of real numbers, as the sampler proposes them; a vector
    with an infinite or [NaN] entry is the matter of [PosteriorFloat].
    [def log_prior(theta):
      if np.any(theta < theta_min) or np.any(theta > theta_max):
          return -np.inf # log(0)
      # Jeffreys Prior on T, K, and s
      return -np.sum(np.log(theta[[0, 2, 6]]))] *)
Definition log_prior (theta : list R) : option npfloat :=
  below ← broadcast2 Rltb (Array theta) (Array theta_min);
  if np_any below then Some NInf
  else
    above ← broadcast2 Rgtb (Array theta) (Array theta_max);
    if np_any above then Some NInf
    else
      sel ← take_indices theta [0; 2; 6]%nat;
      Some (Fin (- foldr Rplus 0 (map ln sel))).

(** [np.isinf]. *)
Definition isinf (a : npfloat) : bool :=
  match a with
  | PInf | NInf => true
  | _ => false
  end.

Section log_posterior.

Variable brentq : root_finder.

(** [def log_posterior(theta, t, rv, rv_err):
      ln_prior = log_prior(theta)
      if np.isinf(ln_prior):
          return ln_prior
      else:
          return ln_prior + log_likelihood(theta, t, rv, rv_err)] *)
Definition log_posterior (theta : list R) (t rv rv_err : nd R) : option npfloat :=
  ln_prior ← log_prior theta;
  if isinf ln_prior then Some ln_prior
  else
    l ← log_likelihood brentq theta t rv rv_err;
    Some (fadd ln_prior (Fin l)).

End log_posterior.


(** A solver that returns whenever the end values of the bracket do not
    have the same strict sign. *)
Definition returns_on_brackets (solve : root_finder) : Prop :=
  forall (f : R -> R) (a b : R), f a * f b <= 0 -> is_Some (solve f a b).

(** A solver that always raises. *)
Definition failing_solver : root_finder := fun _ _ _ => None.

End Posterior.

(** ** 05-Radial-Velocity.ipynb: the prior on float64 vectors

    [Posterior] above has the parameter vector in real numbers, which is
    what the sampler passes in range.  The range test of [log_prior] also
    decides what happens to a vector with an infinite or [NaN] entry; here
    the vector is a float64 array. *)

Module PosteriorFloat.
Import Float Numpy RadialVelocity.

(** [theta_min, theta_max = map(np.array, zip( *theta_lim))] as float64
    arrays. *)
Definition theta_min : list npfloat := map (fun lim => Fin lim.1) theta_lim.
Definition theta_max : list npfloat := map (fun lim => Fin lim.2) theta_lim.

(** [a < b]: every comparison with [NaN] is false. *)
Definition fltb (a b : npfloat) : bool := fgtb b a.

(** [theta[[i, j, k]]]: [IndexError] when an index is out of range. *)
Definition take_indices (theta : list npfloat) (idx : list nat)
    : option (list npfloat) :=
  mapM (fun i => theta !! i) idx.

(** [def log_prior(theta)] on a float64 vector: both comparisons of line
    302 are false on a [NaN] entry, and [np.log] returns [NaN] on it. *)
Definition log_prior (theta : list npfloat) : option npfloat :=
  below ← broadcast2 fltb (Array theta) (Array theta_min);
  if Posterior.np_any below then Some NInf
  else
    above ← broadcast2 fgtb (Array theta) (Array theta_max);
    if Posterior.np_any above then Some NInf
    else
      sel ← take_indices theta [0; 2; 6]%nat;
      Some (fneg (fsum (map flog sel))).

Section log_posterior.

(** [log_likelihood(theta, t, rv, rv_err)].  On a vector of finite entries
    it is [finite_likelihood] below; on a vector that holds a [NaN] its
    result depends on what [brentq] does with a function whose values are
    [NaN], so the callee is left open here. *)
Variable log_likelihood : list npfloat -> nd R -> nd R -> nd R -> option npfloat.

(** [def log_posterior(theta, t, rv, rv_err)], lines 313-318. *)
Definition log_posterior (theta : list npfloat) (t rv rv_err : nd R)
    : option npfloat :=
  ln_prior ← log_prior theta;
  if Posterior.isinf ln_prior then Some ln_prior
  else
    l ← log_likelihood theta t rv rv_err;
    Some (fadd ln_prior l).

End log_posterior.

(** What the two tests of line 302 let through: a real number within the
    limits, or [NaN]. *)
Definition passes (x : npfloat) (lim : R * R) : Prop :=
  match x with
  | Fin r => lim.1 <= r <= lim.2
  | NaN => True
  | PInf | NInf => False
  end.

(** The entries of a float64 vector when all are finite. *)
Definition finite_entries (theta : list npfloat) : option (list R) :=
  mapM (fun a => match a with Fin r => Some r | _ => None end) theta.

(** [log_likelihood] on a float64 vector whose entries are all finite: the
    likelihood of the model on the real numbers.  (A vector with another
    entry is outside this instance, which gives [None] there.) *)
Definition finite_likelihood (brentq : root_finder)
    (theta : list npfloat) (t rv rv_err : nd R) : option npfloat :=
  th ← finite_entries theta;
  l ← RadialVelocity.log_likelihood brentq th t rv rv_err;
  Some (Fin l).

End PosteriorFloat.

(** * Properties of the array operations *)

Module NumpyFacts.
Import Numpy.

Lemma broadcast_to_length {A : Type} (n : nat) (v : nd A) (row : list A) :
  broadcast_to n v = Some row -> length row = n.
Proof.
  unfold broadcast_to. destruct v as [x|xs].
  - intros [= <-]. apply length_replicate.
  - destruct (decide (length xs = n)) as [Hlen|Hlen].
    + intros [= <-]. exact Hlen.
    + destruct xs as [|x [|? ?]]; try discriminate.
      intros [= <-]. apply length_replicate.
Qed.

Lemma broadcast_to_same {A : Type} (n : nat) (xs : list A) :
  length xs = n -> broadcast_to n (Array xs) = Some xs.
Proof.
  intros Hlen. unfold broadcast_to.
  destruct (decide (length xs = n)); [reflexivity|contradiction].
Qed.

(** Lengths of mapped and zipped lists. *)
Ltac len_tac := simpl; rewrite ?length_map, ?length_zip_with; lia.

(** The result of a binary ufunc on an array [xs] is an array; it is as
    long as [xs] unless [xs] has length one. *)
Lemma broadcast2_array_l {A B C : Type} (op : A -> B -> C)
    (xs : list A) (b : nd B) (r : nd C) :
  broadcast2 op (Array xs) b = Some r ->
  exists zs : list C, r = Array zs /\ (length zs = length xs \/ length xs = 1%nat).
Proof.
  unfold broadcast2. destruct b as [y|ys].
  - intros [= <-]. eexists; split; [reflexivity|]. left. len_tac.
  - destruct (decide (length xs = length ys)) as [Hlen|Hlen].
    + intros [= <-]. eexists; split; [reflexivity|]. left. len_tac.
    + destruct xs as [|x [|x' xs']].
      * destruct ys as [|y [|? ?]]; try discriminate.
        intros [= <-]. eexists; split; [reflexivity|]. left. reflexivity.
      * intros [= <-]. eexists; split; [reflexivity|]. right. reflexivity.
      * destruct ys as [|y [|? ?]]; try discriminate.
        intros [= <-]. eexists; split; [reflexivity|]. left. len_tac.
Qed.

Lemma broadcast2_same_length {A B C : Type} (op : A -> B -> C)
    (xs : list A) (ys : list B) :
  length xs = length ys ->
  broadcast2 op (Array xs) (Array ys) = Some (Array (zip_with op xs ys)).
Proof.
  intros Hlen. unfold broadcast2.
  destruct (decide (length xs = length ys)); [reflexivity|contradiction].
Qed.

Lemma set_item_Some {A : Type} (a : list A) (i : nat) (v : A) (a' : list A) :
  set_item a i v = Some a' -> (i < length a)%nat /\ a' = <[i := v]> a.
Proof.
  unfold set_item. destruct (decide (i < length a)%nat); [|discriminate].
  intros [= <-]. split; [assumption|reflexivity].
Qed.

Lemma set_item_in_range {A : Type} (a : list A) (i : nat) (v : A) :
  (i < length a)%nat -> set_item a i v = Some (<[i := v]> a).
Proof.
  intros Hi. unfold set_item.
  destruct (decide (i < length a)%nat); [reflexivity|contradiction].
Qed.

End NumpyFacts.

(** * Properties of the sampler *)

Module SamplerProofs.
Import Float Numpy Sampler NumpyFacts.

#[local] Arguments broadcast_to : simpl never.
#[local] Arguments broadcast2 : simpl never.
#[local] Arguments set_item : simpl never.
#[local] Arguments ln_likelihood : simpl never.
#[local] Arguments propose : simpl never.
#[local] Arguments accepts : simpl never.

(** ** The acceptance test *)

(** The logarithm of a draw from [[0, 1)] is [-inf] or a negative real. *)
Lemma flog_unit_interval (r : R) :
  unit_interval r ->
  flog (Fin r) = NInf \/ exists y : R, flog (Fin r) = Fin y /\ y < 0.
Proof.
  intros [Hlo Hhi]. unfold flog.
  destruct (Rlt_dec 0 r) as [Hpos|Hnpos].
  - right. exists (ln r). split; [reflexivity|].
    rewrite <- ln_1. apply ln_increasing; assumption.
  - destruct (Rlt_dec r 0) as [Hneg|_]; [lra|]. left; reflexivity.
Qed.

Lemma flog_zero : flog (Fin 0) = NInf.
Proof.
  unfold flog.
  destruct (Rlt_dec 0 0) as [H|_]; [lra|].
  reflexivity.
Qed.

(** A candidate that is at least as probable as the current state passes
    the test, whatever the draw. *)
Lemma accepts_uphill (a b r : R) :
  b <= a -> unit_interval r -> accepts (Fin a) (Fin b) (Fin r) = true.
Proof.
  intros Hab Hr. unfold accepts.
  destruct (flog_unit_interval r Hr) as [->|(y & -> & Hy)]; simpl.
  - reflexivity.
  - destruct (Rlt_dec y (a + - b)) as [_|Hn]; [reflexivity|lra].
Qed.

(** From a state of log value [-inf] a candidate of finite log value has
    log ratio [+inf] and passes. *)
Lemma accepts_leaving_ninf (a r : R) :
  unit_interval r -> accepts (Fin a) NInf (Fin r) = true.
Proof.
  intros Hr. unfold accepts.
  destruct (flog_unit_interval r Hr) as [->|(y & -> & _)]; reflexivity.
Qed.

(** When both log values are [-inf] the log ratio is [NaN] and the test
    fails, whatever the draw. *)
Lemma accepts_ninf_tie (r : npfloat) : accepts NInf NInf r = false.
Proof. reflexivity. Qed.

(** With the draw [0] the threshold is [-inf]: every log ratio that is
    neither [-inf] nor [NaN] passes. *)
Lemma accepts_zero_draw (new prev : npfloat) :
  fsub new prev <> NInf -> fsub new prev <> NaN ->
  accepts new prev (Fin 0) = true.
Proof.
  intros Hn Hnan. unfold accepts. rewrite flog_zero.
  destruct (fsub new prev); try reflexivity; congruence.
Qed.

(** ** The loop *)

Section run.

Variable ln_posterior : list npfloat -> list (nd npfloat) -> option npfloat.
Variables nsteps ndim : nat.
Variable theta0 : list npfloat.
Variable stepsize : nd npfloat.
Variable args : list (nd npfloat).
Variable g : rng.

Local Abbreviation step := (mcmc_step ndim stepsize args g).
Local Abbreviation init := (mcmc_init ln_posterior nsteps ndim theta0 args).
Local Abbreviation iter := (mcmc_iter ln_posterior nsteps ndim theta0 stepsize args g).
Local Abbreviation final := (mcmc_final ln_posterior nsteps ndim theta0 stepsize args g).
Local Abbreviation shape := (shape nsteps ndim).
Local Abbreviation step_outcome := (step_outcome ndim stepsize args g).
Local Abbreviation stepsize_fits := (stepsize_fits ndim stepsize).
Local Abbreviation likelihood_defined := (likelihood_defined ndim args).

Lemma propose_length (i : nat) (prev : list npfloat) (r : nd npfloat) :
  propose ndim stepsize g i prev = Some r ->
  exists th, r = Array th /\ (length th = length prev \/ length prev = 1%nat).
Proof.
  unfold propose.
  destruct (broadcast2 fmul stepsize (Array (randn g i ndim))) as [dz|];
    simpl; [|discriminate].
  apply broadcast2_array_l.
Qed.

Lemma propose_row (i : nat) (prev th row : list npfloat) :
  length prev = ndim ->
  propose ndim stepsize g i prev = Some (Array th) ->
  broadcast_to ndim (Array th) = Some row ->
  row = th.
Proof.
  intros Hprev Hprop Hrow.
  destruct (propose_length _ _ _ Hprop) as (th' & [= <-] & Hlen).
  unfold broadcast_to in Hrow.
  destruct (decide (length th = ndim)) as [Hth|Hth].
  - congruence.
  - destruct th as [|x [|? ?]]; try discriminate. simpl in *. lia.
Qed.

Lemma shape_row (st : state) (j : nat) (row : list npfloat) :
  shape st -> chain st !! j = Some row -> length row = ndim.
Proof.
  intros (_ & _ & Hrows) Hj.
  exact (proj1 (Forall_lookup _ _) Hrows j row Hj).
Qed.

Lemma shape_insert (st : state) (i : nat) (row : list npfloat) (v : npfloat) :
  shape st -> length row = ndim ->
  shape (State (<[i := row]> (chain st)) (<[i := v]> (log_likes st))).
Proof.
  intros (Hc & Hl & Hrows) Hrow. unfold Sampler.shape; simpl.
  rewrite !length_insert. repeat split; try assumption.
  apply Forall_insert; assumption.
Qed.

(** The first entries, as lines 246-252 leave them. *)
Lemma mcmc_init_inv (st : state) :
  init = Some st ->
  (0 < nsteps)%nat /\ shape st /\
  exists (row0 : list npfloat) (l0 : npfloat),
    broadcast_to ndim (Array theta0) = Some row0 /\
    ln_posterior row0 args = Some l0 /\
    chain st !! 0%nat = Some row0 /\ log_likes st !! 0%nat = Some l0.
Proof.
  unfold mcmc_init, zeros, zeros2. intros H.
  destruct (broadcast_to ndim (Array theta0)) as [row0|] eqn:Hrow0;
    simpl in H; [|discriminate].
  destruct (set_item (replicate nsteps (replicate ndim (Fin 0))) 0 row0)
    as [c|] eqn:Hc; simpl in H; [|discriminate].
  apply set_item_Some in Hc as [Hn ->]. rewrite length_replicate in Hn.
  rewrite list_lookup_insert_eq in H by (rewrite length_replicate; lia).
  simpl in H.
  destruct (ln_posterior row0 args) as [l0|] eqn:Hl0; simpl in H; [|discriminate].
  destruct (set_item (replicate nsteps (Fin 0)) 0 l0) as [l|] eqn:Hl;
    simpl in H; [|discriminate].
  apply set_item_Some in Hl as [_ ->]. injection H as <-.
  split; [exact Hn|]. split.
  - unfold Sampler.shape; simpl. rewrite !length_insert, !length_replicate.
    repeat split. apply Forall_insert.
    + apply Forall_replicate. apply length_replicate.
    + eapply broadcast_to_length; eassumption.
  - exists row0, l0. simpl. repeat split; try assumption.
    + apply list_lookup_insert_eq. rewrite length_replicate; lia.
    + apply list_lookup_insert_eq. rewrite length_replicate; lia.
Qed.

(** One pass of the loop: it writes entry [i] of both arrays and nothing
    else. *)
Lemma mcmc_step_inv (i : nat) (st st' : state) :
  shape st -> step i st = Some st' ->
  shape st' /\ (i < nsteps)%nat /\
  (forall j, j <> i ->
     chain st' !! j = chain st !! j /\ log_likes st' !! j = log_likes st !! j) /\
  step_outcome i (chain st) (log_likes st) (chain st') (log_likes st').
Proof.
  intros Hshape H. unfold mcmc_step in H.
  destruct (chain st !! (i - 1)%nat) as [prev|] eqn:Hprev; simpl in H; [|discriminate].
  destruct (propose ndim stepsize g i prev) as [[x|th]|] eqn:Hprop;
    simpl in H; try discriminate.
  destruct (ln_likelihood th args) as [new|] eqn:Hnew; simpl in H; [|discriminate].
  destruct (log_likes st !! (i - 1)%nat) as [old|] eqn:Hold; simpl in H; [|discriminate].
  pose proof (shape_row _ _ _ Hshape Hprev) as Hlenprev.
  destruct (accepts new old (rand g i)) eqn:Hacc.
  - destruct (broadcast_to ndim (Array th)) as [row|] eqn:Hrow; simpl in H; [|discriminate].
    pose proof (propose_row _ _ _ _ Hlenprev Hprop Hrow) as ->.
    destruct (set_item (chain st) i th) as [c|] eqn:Hc; simpl in H; [|discriminate].
    destruct (set_item (log_likes st) i new) as [l|] eqn:Hl; simpl in H; [|discriminate].
    apply set_item_Some in Hc as [Hic ->]. apply set_item_Some in Hl as [Hil ->].
    injection H as <-. simpl.
    split; [apply shape_insert; [assumption|eapply broadcast_to_length; eassumption]|].
    split; [destruct Hshape as (<- & _); exact Hic|].
    split.
    + intros j Hj. split; apply list_lookup_insert_ne; congruence.
    + exists prev, th, new, old. rewrite Hacc.
      repeat split; try assumption; apply list_lookup_insert_eq; assumption.
  - destruct (set_item (chain st) i prev) as [c|] eqn:Hc; simpl in H; [|discriminate].
    destruct (set_item (log_likes st) i old) as [l|] eqn:Hl; simpl in H; [|discriminate].
    apply set_item_Some in Hc as [Hic ->]. apply set_item_Some in Hl as [Hil ->].
    injection H as <-. simpl.
    split; [apply shape_insert; assumption|].
    split; [destruct Hshape as (<- & _); exact Hic|].
    split.
    + intros j Hj. split; apply list_lookup_insert_ne; congruence.
    + exists prev, th, new, old. rewrite Hacc.
      repeat split; try assumption; apply list_lookup_insert_eq; assumption.
Qed.

(** The passes [a, a + 1, ..., a + k - 1]: entries below [a] are left as
    they were, and every pass [i] leaves in entry [i] what [step_outcome]
    says, read off the arrays as they are at the end. *)
Lemma for_range_inv (k a : nat) (st st' : state) :
  (1 <= a)%nat -> shape st ->
  for_range step (seq a k) st = Some st' ->
  shape st' /\ (k = 0%nat \/ (a + k <= nsteps)%nat) /\
  (forall j, (j < a)%nat ->
     chain st' !! j = chain st !! j /\ log_likes st' !! j = log_likes st !! j) /\
  (forall i, (a <= i < a + k)%nat ->
     step_outcome i (chain st') (log_likes st') (chain st') (log_likes st')).
Proof.
  revert a st. induction k as [|k IH]; intros a st Ha Hshape H; simpl in H.
  - injection H as <-.
    split; [assumption|]. split; [left; reflexivity|].
    split; [intros j _; split; reflexivity|intros i Hi; lia].
  - destruct (step a st) as [st1|] eqn:Hstep; simpl in H; [|discriminate].
    destruct (mcmc_step_inv _ _ _ Hshape Hstep) as (Hshape1 & Hlt & Hframe & Hout).
    destruct (IH (S a) st1 ltac:(lia) Hshape1 H) as (Hshape' & Hbound & Hrest & Houts).
    split; [assumption|]. split; [right; destruct Hbound; lia|]. split.
    + intros j Hj. destruct (Hrest j ltac:(lia)) as [-> ->].
      apply Hframe. lia.
    + intros i Hi. destruct (decide (i = a)) as [->|Hne].
      * destruct Hout as (prev & th & new & old & Hp & Hprop & Hnew & Hold & Hres).
        exists prev, th, new, old.
        destruct (Hrest (a - 1)%nat ltac:(lia)) as [-> ->].
        destruct (Hrest a ltac:(lia)) as [-> ->].
        destruct (Hframe (a - 1)%nat ltac:(lia)) as [-> ->].
        repeat split; assumption.
      * apply Houts. lia.
Qed.

(** The state after [k] passes: the shape, the first entries, and what
    every pass so far has left. *)
Lemma mcmc_iter_inv (k : nat) (st : state) :
  iter k = Some st ->
  (0 < nsteps)%nat /\ shape st /\
  (exists (row0 : list npfloat) (l0 : npfloat),
     broadcast_to ndim (Array theta0) = Some row0 /\
     ln_posterior row0 args = Some l0 /\
     chain st !! 0%nat = Some row0 /\ log_likes st !! 0%nat = Some l0) /\
  (forall i, (1 <= i <= k)%nat ->
     step_outcome i (chain st) (log_likes st) (chain st) (log_likes st)).
Proof.
  unfold mcmc_iter. intros H.
  destruct init as [st0|] eqn:Hinit; simpl in H; [|discriminate].
  destruct (mcmc_init_inv _ Hinit) as (Hn & Hshape0 & row0 & l0 & Hrow0 & Hl0 & Hc0 & Hll0).
  destruct (for_range_inv k 1 st0 st ltac:(lia) Hshape0 H)
    as (Hshape & _ & Hframe & Houts).
  split; [assumption|]. split; [assumption|]. split.
  - exists row0, l0. destruct (Hframe 0%nat ltac:(lia)) as [-> ->].
    repeat split; assumption.
  - intros i Hi. apply Houts. lia.
Qed.

(** ** Runs that do not raise *)

Lemma randn_length (i : nat) : length (randn g i ndim) = ndim.
Proof. unfold randn. rewrite length_map. apply length_seq. Qed.

Lemma propose_total (i : nat) (prev : list npfloat) :
  stepsize_fits -> length prev = ndim ->
  exists th, propose ndim stepsize g i prev = Some (Array th) /\ length th = ndim.
Proof.
  intros Hfit Hprev. unfold propose, Sampler.stepsize_fits in *.
  pose proof (randn_length i) as Hz.
  destruct stepsize as [s|ss].
  - change (broadcast2 fmul (Scalar s) (Array (randn g i ndim)))
      with (Some (Array (map (fmul s) (randn g i ndim)))).
    simpl. rewrite broadcast2_same_length by (rewrite length_map; lia).
    eexists; split; [reflexivity|]. rewrite length_zip_with, length_map. lia.
  - rewrite broadcast2_same_length by lia.
    simpl. rewrite broadcast2_same_length by (rewrite length_zip_with; lia).
    eexists; split; [reflexivity|]. rewrite !length_zip_with. lia.
Qed.

Lemma mcmc_step_total (i : nat) (st : state) :
  stepsize_fits -> likelihood_defined ->
  shape st -> (1 <= i < nsteps)%nat -> is_Some (step i st).
Proof.
  intros Hfit Hlik Hshape Hi.
  pose proof Hshape as (Hc & Hl & _).
  destruct (lookup_lt_is_Some_2 (chain st) (i - 1)%nat ltac:(lia)) as [prev Hprev].
  destruct (lookup_lt_is_Some_2 (log_likes st) (i - 1)%nat ltac:(lia)) as [old Hold].
  pose proof (shape_row _ _ _ Hshape Hprev) as Hlenprev.
  destruct (propose_total i prev Hfit Hlenprev) as (th & Hprop & Hth).
  destruct (Hlik th Hth) as [new Hnew].
  unfold mcmc_step. rewrite Hprev; simpl. rewrite Hprop; simpl.
  rewrite Hnew; simpl. rewrite Hold; simpl.
  destruct (accepts new old (rand g i)).
  - rewrite (broadcast_to_same ndim th Hth); simpl.
    rewrite set_item_in_range by lia; simpl.
    rewrite set_item_in_range by lia; simpl. eexists; reflexivity.
  - rewrite set_item_in_range by lia; simpl.
    rewrite set_item_in_range by lia; simpl. eexists; reflexivity.
Qed.

Lemma for_range_total (k a : nat) (st : state) :
  stepsize_fits -> likelihood_defined ->
  (1 <= a)%nat -> (a + k <= nsteps)%nat -> shape st ->
  is_Some (for_range step (seq a k) st).
Proof.
  intros Hfit Hlik. revert a st.
  induction k as [|k IH]; intros a st Ha Hk Hshape; simpl.
  - eexists; reflexivity.
  - destruct (mcmc_step_total a st Hfit Hlik Hshape ltac:(lia)) as [st1 Hstep].
    rewrite Hstep; simpl.
    apply IH; [lia|lia|].
    exact (proj1 (mcmc_step_inv _ _ _ Hshape Hstep)).
Qed.

Lemma mcmc_init_total (l0 : npfloat) :
  (1 <= nsteps)%nat -> length theta0 = ndim ->
  ln_posterior theta0 args = Some l0 ->
  is_Some init.
Proof.
  intros Hn Hlen Hl0. unfold mcmc_init, zeros, zeros2.
  rewrite (broadcast_to_same ndim theta0 Hlen); simpl.
  rewrite set_item_in_range by (rewrite length_replicate; lia); simpl.
  rewrite list_lookup_insert_eq by (rewrite length_replicate; lia); simpl.
  rewrite Hl0; simpl.
  rewrite set_item_in_range by (rewrite length_replicate; lia); simpl.
  eexists; reflexivity.
Qed.

(** Under these conditions every prefix of the loop runs through. *)
Lemma mcmc_iter_total (k : nat) (l0 : npfloat) :
  (1 <= nsteps)%nat -> length theta0 = ndim ->
  ln_posterior theta0 args = Some l0 ->
  stepsize_fits -> likelihood_defined ->
  (k <= nsteps - 1)%nat ->
  is_Some (iter k).
Proof.
  intros Hn Hlen Hl0 Hfit Hlik Hk.
  destruct (mcmc_init_total l0 Hn Hlen Hl0) as [st0 Hinit].
  unfold mcmc_iter. rewrite Hinit; simpl.
  apply for_range_total; try assumption; try lia.
  exact (proj1 (proj2 (mcmc_init_inv _ Hinit))).
Qed.

(** What pass [i] left, read off the arrays the loop ends with. *)
Lemma final_outcome (st : state) (i : nat) :
  final = Some st -> (1 <= i < nsteps)%nat ->
  step_outcome i (chain st) (log_likes st) (chain st) (log_likes st).
Proof.
  intros Hfin Hi. unfold mcmc_final in Hfin.
  destruct (mcmc_iter_inv _ _ Hfin) as (_ & _ & _ & Houts).
  apply Houts. lia.
Qed.

(** The first pass of a run that starts from a [theta0] of [ndim]
    entries. *)
Lemma first_pass (st : state) (l0 new : npfloat) (th : list npfloat) :
  final = Some st -> (2 <= nsteps)%nat -> length theta0 = ndim ->
  ln_posterior theta0 args = Some l0 ->
  propose ndim stepsize g 1 theta0 = Some (Array th) ->
  ln_likelihood th args = Some new ->
  chain st !! 0%nat = Some theta0 /\ log_likes st !! 0%nat = Some l0 /\
  if accepts new l0 (rand g 1)
  then chain st !! 1%nat = Some th /\ log_likes st !! 1%nat = Some new
  else chain st !! 1%nat = Some theta0 /\ log_likes st !! 1%nat = Some l0.
Proof.
  intros Hfin Hn Hlen Hl0 Hprop Hnew.
  pose proof (final_outcome st 1 Hfin ltac:(lia)) as Hout.
  unfold mcmc_final in Hfin.
  destruct (mcmc_iter_inv _ _ Hfin)
    as (_ & _ & (row0 & l0' & Hrow0 & Hl0' & Hc0 & Hll0) & _).
  rewrite (broadcast_to_same ndim theta0 Hlen) in Hrow0. injection Hrow0 as <-.
  rewrite Hl0 in Hl0'. injection Hl0' as <-.
  destruct Hout as (prev & th' & new' & old & Hprev & Hprop' & Hnew' & Hold & Hres).
  simpl in Hprev, Hold.
  rewrite Hc0 in Hprev. injection Hprev as <-.
  rewrite Hll0 in Hold. injection Hold as <-.
  rewrite Hprop in Hprop'. injection Hprop' as <-.
  rewrite Hnew in Hnew'. injection Hnew' as <-.
  split; [assumption|]. split; assumption.
Qed.

(** *** The claims about the loop *)

(** C3: in a run with [nsteps >= 1], an initial vector [theta0] of [ndim]
    entries and a log-posterior function [ln_posterior], after any number
    [k] of passes of the loop the chain has [nsteps] rows, the log-value
    array has [nsteps] entries, [chain[0]] is [theta0] and [log_likes[0]]
    is [ln_posterior(theta0)]. *)
Theorem chain_invariant (k : nat) (st : state) :
  (1 <= nsteps)%nat -> length theta0 = ndim ->
  mcmc_iter ln_posterior nsteps ndim theta0 stepsize args g k = Some st ->
  length (chain st) = nsteps /\ length (log_likes st) = nsteps /\
  chain st !! 0%nat = Some theta0 /\
  exists l0 : npfloat,
    ln_posterior theta0 args = Some l0 /\ log_likes st !! 0%nat = Some l0.
Proof.
  intros _ Hlen Hk.
  destruct (mcmc_iter_inv _ _ Hk)
    as (_ & (Hc & Hl & _) & (row0 & l0 & Hrow0 & Hl0 & Hc0 & Hll0) & _).
  rewrite (broadcast_to_same ndim theta0 Hlen) in Hrow0. injection Hrow0 as <-.
  repeat split; try assumption. exists l0. split; assumption.
Qed.

(** C4: at every pass [i] with [1 <= i < nsteps], with [th] the candidate
    and [new] its log value, [prev] and [old] row [i - 1] and its log
    value, and [r] the uniform draw of the pass: if [new - old > log r]
    then [chain[i] = th] and [log_likes[i] = new], otherwise
    [chain[i] = chain[i - 1]] and [log_likes[i] = log_likes[i - 1]]; and
    when [new >= old], both finite, the candidate is taken whatever draw
    [r] of [[0, 1)] comes. *)
Theorem acceptance_rule (st : state) (i : nat) :
  mcmc_final ln_posterior nsteps ndim theta0 stepsize args g = Some st ->
  (1 <= i < nsteps)%nat ->
  exists (prev th : list npfloat) (old new : npfloat),
    chain st !! (i - 1)%nat = Some prev /\
    log_likes st !! (i - 1)%nat = Some old /\
    propose ndim stepsize g i prev = Some (Array th) /\
    ln_likelihood th args = Some new /\
    (fgtb (fsub new old) (flog (rand g i)) = true ->
       chain st !! i = Some th /\ log_likes st !! i = Some new) /\
    (fgtb (fsub new old) (flog (rand g i)) = false ->
       chain st !! i = Some prev /\ log_likes st !! i = Some old) /\
    (forall a b : R,
       new = Fin a -> old = Fin b -> b <= a -> unit_interval (uniform g i) ->
       chain st !! i = Some th /\ log_likes st !! i = Some new).
Proof.
  intros Hfin Hi.
  destruct (final_outcome st i Hfin Hi)
    as (prev & th & new & old & Hprev & Hprop & Hnew & Hold & Hres).
  exists prev, th, old, new.
  do 4 (split; [assumption|]).
  split; [|split].
  - intros Hacc. unfold accepts in Hres. rewrite Hacc in Hres. exact Hres.
  - intros Hacc. unfold accepts in Hres. rewrite Hacc in Hres. exact Hres.
  - intros a b -> -> Hab Hr. unfold rand in Hres.
    rewrite (accepts_uphill a b _ Hab Hr) in Hres. exact Hres.
Qed.

(** C5, as the code has it: at a pass whose current log value
    [log_likes[i - 1]] is [-inf], a candidate of finite log value is taken;
    a candidate whose log value is [-inf] too is not taken: the log ratio
    is [NaN], the comparison is false, and the pass repeats the previous
    state. *)
Theorem minus_infinity_state (st : state) (i : nat) :
  mcmc_final ln_posterior nsteps ndim theta0 stepsize args g = Some st ->
  (1 <= i < nsteps)%nat ->
  log_likes st !! (i - 1)%nat = Some NInf ->
  unit_interval (uniform g i) ->
  exists (prev th : list npfloat) (new : npfloat),
    chain st !! (i - 1)%nat = Some prev /\
    propose ndim stepsize g i prev = Some (Array th) /\
    ln_likelihood th args = Some new /\
    (is_finite new -> chain st !! i = Some th /\ log_likes st !! i = Some new) /\
    (new = NInf -> chain st !! i = Some prev /\ log_likes st !! i = Some NInf).
Proof.
  intros Hfin Hi Hninf Hr.
  destruct (final_outcome st i Hfin Hi)
    as (prev & th & new & old & Hprev & Hprop & Hnew & Hold & Hres).
  rewrite Hninf in Hold. injection Hold as <-.
  exists prev, th, new.
  do 3 (split; [assumption|]).
  split.
  - intros Hfinite. destruct new as [a| | |]; simpl in Hfinite; try contradiction.
    unfold rand in Hres. rewrite (accepts_leaving_ninf a _ Hr) in Hres. exact Hres.
  - intros ->. rewrite accepts_ninf_tie in Hres. exact Hres.
Qed.

(** C10: the draw [0] lies in the range [[0, 1)] of the uniform draws;
    at a pass whose draw is [0] the threshold [log r] is [-inf], and the
    candidate is taken whenever its log ratio [new - old] is neither
    [-inf] nor [NaN]. *)
Theorem zero_draw_accepts (st : state) (i : nat) :
  mcmc_final ln_posterior nsteps ndim theta0 stepsize args g = Some st ->
  (1 <= i < nsteps)%nat ->
  uniform g i = 0 ->
  unit_interval (uniform g i) /\ flog (rand g i) = NInf /\
  exists (prev th : list npfloat) (old new : npfloat),
    chain st !! (i - 1)%nat = Some prev /\
    log_likes st !! (i - 1)%nat = Some old /\
    propose ndim stepsize g i prev = Some (Array th) /\
    ln_likelihood th args = Some new /\
    (fsub new old <> NInf -> fsub new old <> NaN ->
       chain st !! i = Some th /\ log_likes st !! i = Some new).
Proof.
  intros Hfin Hi Hzero.
  split; [rewrite Hzero; unfold unit_interval; lra|].
  split; [unfold rand; rewrite Hzero; apply flog_zero|].
  destruct (final_outcome st i Hfin Hi)
    as (prev & th & new & old & Hprev & Hprop & Hnew & Hold & Hres).
  exists prev, th, old, new.
  do 4 (split; [assumption|]).
  intros Hn Hnan. unfold rand in Hres. rewrite Hzero in Hres.
  rewrite (accepts_zero_draw new old Hn Hnan) in Hres. exact Hres.
Qed.

(** C1, as the code has it: a call that does not raise has [nsteps >= 1]
    and returns the chain alone, an array of [nsteps] rows of [ndim]
    entries; the log values, [nsteps] of them, stay inside the call.  The
    call does not raise when [nsteps >= 1], [theta0] has [ndim] entries,
    [ln_posterior(theta0)] returns, the step size fits and [ln_likelihood]
    returns on every candidate. *)
Theorem run_mcmc_returns_chain (l0 : npfloat) :
  (forall v : pyval,
     run_mcmc ln_posterior nsteps ndim theta0 stepsize args g = Some v ->
     (1 <= nsteps)%nat /\
     exists st : state,
       mcmc_final ln_posterior nsteps ndim theta0 stepsize args g = Some st /\
       v = PyArray2 (chain st) /\
       length (chain st) = nsteps /\
       Forall (fun row => length row = ndim) (chain st) /\
       length (log_likes st) = nsteps) /\
  ((1 <= nsteps)%nat -> length theta0 = ndim ->
   ln_posterior theta0 args = Some l0 ->
   stepsize_fits -> likelihood_defined ->
   exists st : state,
     mcmc_final ln_posterior nsteps ndim theta0 stepsize args g = Some st /\
     run_mcmc ln_posterior nsteps ndim theta0 stepsize args g
       = Some (PyArray2 (chain st)) /\
     length (chain st) = nsteps /\
     Forall (fun row => length row = ndim) (chain st) /\
     length (log_likes st) = nsteps).
Proof.
  split.
  - intros v Hv. unfold run_mcmc in Hv.
    destruct final as [st|] eqn:Hst; [|discriminate].
    injection Hv as <-.
    destruct (mcmc_iter_inv _ _ Hst) as (Hn & (Hc & Hl & Hrows) & _).
    split; [lia|]. exists st. repeat split; assumption.
  - intros Hn Hlen Hl0 Hfit Hlik.
    destruct (mcmc_iter_total (nsteps - 1) l0 Hn Hlen Hl0 Hfit Hlik (le_n _))
      as [st Hst].
    exists st. split; [exact Hst|].
    destruct (mcmc_iter_inv _ _ Hst) as (_ & (Hc & Hl & Hrows) & _).
    split; [|repeat split; assumption].
    unfold run_mcmc, mcmc_final. rewrite Hst. reflexivity.
Qed.

End run.

(** ** The notebook's likelihood on data arrays *)

(** On three data arrays of one length, [ln_likelihood] returns for every
    [theta] that has the two entries [model] reads. *)
Lemma ln_likelihood_total (th x y dy : list npfloat) :
  (2 <= length th)%nat -> length x = length y -> length y = length dy ->
  is_Some (ln_likelihood th [Array x; Array y; Array dy]).
Proof.
  intros Hth Hxy Hydy.
  destruct th as [|b [|m rest]]; simpl in Hth; try lia.
  unfold ln_likelihood, model. simpl.
  rewrite broadcast2_same_length by (rewrite !length_map; lia). simpl.
  rewrite broadcast2_same_length by (rewrite length_zip_with, !length_map; lia).
  simpl.
  rewrite broadcast2_same_length
    by (rewrite !length_map, !length_zip_with, !length_map; lia).
  simpl. eexists; reflexivity.
Qed.

(** The value on one data point. *)
Lemma ln_likelihood_one_point (b m x y dy : npfloat) :
  ln_likelihood [b; m] (Examples.one_point x y dy)
  = Some (fmul (Fin (-0.5))
            (fadd (fadd (flog (fmul (Fin (2 * PI)) (fmul dy dy)))
                        (fmul (fdiv (fsub y (fadd b (fmul m x))) dy)
                              (fdiv (fsub y (fadd b (fmul m x))) dy)))
                  (Fin 0))).
Proof. reflexivity. Qed.

(** ** Sample runs *)

Import Examples.

(** Case analysis on the comparisons of real numbers in the goal. *)
Ltac decide_reals :=
  repeat match goal with
  | |- context [Rlt_dec ?a ?b] =>
      destruct (Rlt_dec a b); try (exfalso; pose proof PI_RGT_0; lra)
  | |- context [Rle_dec ?a ?b] =>
      destruct (Rle_dec a b); try (exfalso; pose proof PI_RGT_0; lra)
  | |- context [Req_dec_T ?a ?b] =>
      destruct (Req_dec_T a b); try (exfalso; pose proof PI_RGT_0; lra)
  end.

Lemma steady_draw_in_unit_interval (i : nat) : unit_interval (uniform steady_rng i).
Proof. unfold unit_interval; simpl. lra. Qed.

(** The notebook's own call, on two data points: it runs through. *)
Lemma line_run_total (k : nat) :
  (k <= 2)%nat ->
  is_Some (mcmc_iter ln_posterior 3 2 [Fin 0; Fin 1] (Scalar (Fin 0.1))
             line_data steady_rng k).
Proof.
  intros Hk.
  eapply mcmc_iter_total.
  - lia.
  - reflexivity.
  - reflexivity.
  - exact I.
  - intros th Hth. apply ln_likelihood_total; [lia|reflexivity|reflexivity].
  - simpl. exact Hk.
Qed.

(** With an infinite uncertainty [dy] the likelihood is [-inf] at every
    finite [theta]. *)
Lemma ln_likelihood_infinite_dy (b m x y : R) :
  ln_likelihood [Fin b; Fin m] (one_point (Fin x) (Fin y) PInf) = Some NInf.
Proof.
  rewrite ln_likelihood_one_point. simpl. unfold scale_inf.
  decide_reals. simpl. decide_reals. reflexivity.
Qed.

(** With one data point of finite values and [dy = 1] the likelihood is
    finite. *)
Lemma ln_likelihood_unit_dy (b m x y : R) :
  ln_likelihood [Fin b; Fin m] (one_point (Fin x) (Fin y) (Fin 1))
  = Some (Fin (-0.5 * (ln (2 * PI * (1 * 1))
                       + (y + - (b + m * x)) / 1 * ((y + - (b + m * x)) / 1)
                       + 0))).
Proof.
  rewrite ln_likelihood_one_point. simpl.
  decide_reals. reflexivity.
Qed.

(** C3 on the notebook's call with three steps, after two passes. *)
Lemma chain_invariant_witness :
  exists st : state,
    mcmc_iter ln_posterior 3 2 [Fin 0; Fin 1] (Scalar (Fin 0.1))
      line_data steady_rng 2 = Some st /\
    length (chain st) = 3%nat /\ length (log_likes st) = 3%nat /\
    chain st !! 0%nat = Some [Fin 0; Fin 1] /\
    exists l0 : npfloat,
      ln_posterior [Fin 0; Fin 1] line_data = Some l0 /\
      log_likes st !! 0%nat = Some l0.
Proof.
  destruct (line_run_total 2 (le_n 2)) as [st Hst].
  exists st. split; [exact Hst|].
  apply (chain_invariant ln_posterior 3 2 [Fin 0; Fin 1] (Scalar (Fin 0.1))
           line_data steady_rng 2 st); [lia|reflexivity|exact Hst].
Defined.

(** C4 on the same call, at the first pass. *)
Lemma acceptance_rule_witness :
  exists st : state,
    mcmc_final ln_posterior 3 2 [Fin 0; Fin 1] (Scalar (Fin 0.1))
      line_data steady_rng = Some st /\
  exists (prev th : list npfloat) (old new : npfloat),
    chain st !! 0%nat = Some prev /\
    log_likes st !! 0%nat = Some old /\
    propose 2 (Scalar (Fin 0.1)) steady_rng 1 prev = Some (Array th) /\
    ln_likelihood th line_data = Some new /\
    (fgtb (fsub new old) (flog (rand steady_rng 1)) = true ->
       chain st !! 1%nat = Some th /\ log_likes st !! 1%nat = Some new) /\
    (fgtb (fsub new old) (flog (rand steady_rng 1)) = false ->
       chain st !! 1%nat = Some prev /\ log_likes st !! 1%nat = Some old) /\
    (forall a b : R,
       new = Fin a -> old = Fin b -> b <= a ->
       unit_interval (uniform steady_rng 1) ->
       chain st !! 1%nat = Some th /\ log_likes st !! 1%nat = Some new).
Proof.
  destruct (line_run_total 2 (le_n 2)) as [st Hst].
  exists st. split; [exact Hst|].
  apply (acceptance_rule ln_posterior 3 2 [Fin 0; Fin 1] (Scalar (Fin 0.1))
           line_data steady_rng st 1 Hst).
  lia.
Defined.

(** C1 as amended, on the same call. *)
Lemma run_mcmc_returns_chain_witness :
  exists st : state,
    mcmc_final ln_posterior 3 2 [Fin 0; Fin 1] (Scalar (Fin 0.1))
      line_data steady_rng = Some st /\
    run_mcmc ln_posterior 3 2 [Fin 0; Fin 1] (Scalar (Fin 0.1))
      line_data steady_rng = Some (PyArray2 (chain st)) /\
    length (chain st) = 3%nat /\
    Forall (fun row => length row = 2%nat) (chain st) /\
    length (log_likes st) = 3%nat.
Proof.
  eapply (proj2 (run_mcmc_returns_chain ln_posterior 3 2 [Fin 0; Fin 1]
                   (Scalar (Fin 0.1)) line_data steady_rng _)).
  - lia.
  - reflexivity.
  - reflexivity.
  - exact I.
  - intros th Hth. apply ln_likelihood_total; [lia|reflexivity|reflexivity].
Defined.

(** C1 as stated fails: the notebook's call returns an array, which is the
    chain, and not a pair of the chain and the log values. *)
Lemma run_mcmc_returns_no_pair :
  (exists rows : list (list npfloat),
     run_mcmc ln_posterior 3 2 [Fin 0; Fin 1] (Scalar (Fin 0.1))
       line_data steady_rng = Some (PyArray2 rows)) /\
  ~ (exists (rows : list (list npfloat)) (log_values : list npfloat),
       run_mcmc ln_posterior 3 2 [Fin 0; Fin 1] (Scalar (Fin 0.1))
         line_data steady_rng
       = Some (PyTuple [PyArray2 rows; PyArray1 log_values])).
Proof.
  destruct (line_run_total 2 (le_n 2)) as [st Hst].
  assert (Hrun : run_mcmc ln_posterior 3 2 [Fin 0; Fin 1] (Scalar (Fin 0.1))
                   line_data steady_rng = Some (PyArray2 (chain st))).
  { unfold run_mcmc, mcmc_final. simpl Nat.sub. rewrite Hst. reflexivity. }
  split.
  - exists (chain st). exact Hrun.
  - intros (rows & logs & Hpair). rewrite Hrun in Hpair. discriminate.
Qed.

(** A run that starts outside the support of [supported_posterior]: the
    first log value is [-inf]. *)
Lemma outside_run_total :
  is_Some (mcmc_final supported_posterior 2 2 [Fin 1; Fin 0] (Scalar (Fin 1))
             (one_point (Fin 0) (Fin 0) (Fin 1)) steady_rng).
Proof.
  eapply (mcmc_iter_total supported_posterior 2 2 [Fin 1; Fin 0] (Scalar (Fin 1))
            (one_point (Fin 0) (Fin 0) (Fin 1)) steady_rng 1 NInf).
  - lia.
  - reflexivity.
  - unfold supported_posterior. decide_reals. reflexivity.
  - exact I.
  - intros th Hth. apply ln_likelihood_total; [lia|reflexivity|reflexivity].
  - simpl. lia.
Qed.

(** C5 as amended, on a run that starts outside the support. *)
Lemma minus_infinity_state_witness :
  exists st : state,
    mcmc_final supported_posterior 2 2 [Fin 1; Fin 0] (Scalar (Fin 1))
      (one_point (Fin 0) (Fin 0) (Fin 1)) steady_rng = Some st /\
  exists (prev th : list npfloat) (new : npfloat),
    chain st !! 0%nat = Some prev /\
    propose 2 (Scalar (Fin 1)) steady_rng 1 prev = Some (Array th) /\
    ln_likelihood th (one_point (Fin 0) (Fin 0) (Fin 1)) = Some new /\
    (is_finite new ->
       chain st !! 1%nat = Some th /\ log_likes st !! 1%nat = Some new) /\
    (new = NInf ->
       chain st !! 1%nat = Some prev /\ log_likes st !! 1%nat = Some NInf).
Proof.
  destruct outside_run_total as [st Hst].
  exists st. split; [exact Hst|].
  apply (minus_infinity_state supported_posterior 2 2 [Fin 1; Fin 0]
           (Scalar (Fin 1)) (one_point (Fin 0) (Fin 0) (Fin 1)) steady_rng
           st 1 Hst).
  - lia.
  - destruct (mcmc_iter_inv _ _ _ _ _ _ _ _ _ Hst)
      as (_ & _ & (row0 & l0 & Hrow0 & Hl0 & _ & Hll0) & _).
    injection Hrow0 as <-.
    unfold supported_posterior in Hl0.
    destruct (Rle_dec 1 (1 / 2)) as [Hle|_]; [exfalso; lra|].
    injection Hl0 as <-. exact Hll0.
  - apply steady_draw_in_unit_interval.
Defined.

(** C5 as stated fails: with an infinite [dy] the first log value and the
    candidate's are both [-inf], and the pass repeats [theta0] although the
    candidate differs from it. *)
Lemma tie_repeats_previous_state :
  exists (st : state) (th : list npfloat),
    mcmc_final ln_posterior 2 2 [Fin 0; Fin 0] (Scalar (Fin 1))
      (one_point (Fin 0) (Fin 0) PInf) steady_rng = Some st /\
    log_likes st !! 0%nat = Some NInf /\
    propose 2 (Scalar (Fin 1)) steady_rng 1 [Fin 0; Fin 0] = Some (Array th) /\
    ln_likelihood th (one_point (Fin 0) (Fin 0) PInf) = Some NInf /\
    th <> [Fin 0; Fin 0] /\
    chain st !! 1%nat = Some [Fin 0; Fin 0] /\
    log_likes st !! 1%nat = Some NInf.
Proof.
  assert (Hl0 : ln_posterior [Fin 0; Fin 0] (one_point (Fin 0) (Fin 0) PInf)
                = Some NInf).
  { unfold ln_posterior, one_point.
    change [Array [Fin 0]; Array [Fin 0]; Array [PInf]]
      with (one_point (Fin 0) (Fin 0) PInf).
    rewrite ln_likelihood_infinite_dy. reflexivity. }
  assert (Htot : is_Some (mcmc_final ln_posterior 2 2 [Fin 0; Fin 0]
                   (Scalar (Fin 1)) (one_point (Fin 0) (Fin 0) PInf) steady_rng)).
  { eapply (mcmc_iter_total ln_posterior 2 2 [Fin 0; Fin 0] (Scalar (Fin 1))
              (one_point (Fin 0) (Fin 0) PInf) steady_rng 1 NInf).
    - lia.
    - reflexivity.
    - exact Hl0.
    - exact I.
    - intros th Hth. apply ln_likelihood_total; [lia|reflexivity|reflexivity].
    - simpl. lia. }
  destruct Htot as [st Hst].
  exists st, [Fin (0 + 1 * 1); Fin (0 + 1 * 1)].
  pose proof (first_pass ln_posterior 2 2 [Fin 0; Fin 0] (Scalar (Fin 1))
                (one_point (Fin 0) (Fin 0) PInf) steady_rng st NInf NInf
                [Fin (0 + 1 * 1); Fin (0 + 1 * 1)] Hst
                ltac:(lia) eq_refl Hl0 eq_refl
                (ln_likelihood_infinite_dy _ _ _ _)) as (Hc0 & Hll0 & Hres).
  rewrite accepts_ninf_tie in Hres. destruct Hres as [Hc1 Hll1].
  split; [exact Hst|]. split; [exact Hll0|]. split; [reflexivity|].
  split; [apply ln_likelihood_infinite_dy|]. split; [|split; assumption].
  intros [= H _]. lra.
Qed.

(** C10 on a run whose uniform draws are [0]. *)
Lemma zero_draw_accepts_witness :
  exists st : state,
    mcmc_final ln_posterior 2 2 [Fin 0; Fin 1] (Scalar (Fin 0.1))
      line_data zero_rng = Some st /\
    unit_interval (uniform zero_rng 1) /\ flog (rand zero_rng 1) = NInf /\
    exists (prev th : list npfloat) (old new : npfloat),
      chain st !! 0%nat = Some prev /\
      log_likes st !! 0%nat = Some old /\
      propose 2 (Scalar (Fin 0.1)) zero_rng 1 prev = Some (Array th) /\
      ln_likelihood th line_data = Some new /\
      (fsub new old <> NInf -> fsub new old <> NaN ->
         chain st !! 1%nat = Some th /\ log_likes st !! 1%nat = Some new).
Proof.
  assert (Htot : is_Some (mcmc_final ln_posterior 2 2 [Fin 0; Fin 1]
                   (Scalar (Fin 0.1)) line_data zero_rng)).
  { eapply (mcmc_iter_total ln_posterior 2 2 [Fin 0; Fin 1] (Scalar (Fin 0.1))
              line_data zero_rng 1).
    - lia.
    - reflexivity.
    - reflexivity.
    - exact I.
    - intros th Hth. apply ln_likelihood_total; [lia|reflexivity|reflexivity].
    - simpl. lia. }
  destruct Htot as [st Hst].
  exists st. split; [exact Hst|].
  apply (zero_draw_accepts ln_posterior 2 2 [Fin 0; Fin 1] (Scalar (Fin 0.1))
           line_data zero_rng st 1 Hst); [lia|reflexivity].
Defined.

(** C2 does not hold of the code.  The run below is given a log-posterior
    with a prior, [supported_posterior]; its first entry is computed with
    it, as line 252 has it.  The candidate of the first pass lies outside
    the prior's support: the function given to [run_mcmc] values it at
    [-inf], and with that value the test of line 274 fails.  The pass
    values the candidate with the notebook's [ln_likelihood] instead
    (line 262), which is finite there, and takes the candidate. *)
Theorem candidate_valued_by_ln_likelihood :
  exists (st : state) (th : list npfloat) (old new : npfloat),
    mcmc_final supported_posterior 2 2 [Fin 0; Fin 0] (Scalar (Fin 1))
      (one_point (Fin 0) (Fin 1) (Fin 1)) steady_rng = Some st /\
    supported_posterior [Fin 0; Fin 0] (one_point (Fin 0) (Fin 1) (Fin 1))
      = Some old /\
    log_likes st !! 0%nat = Some old /\
    propose 2 (Scalar (Fin 1)) steady_rng 1 [Fin 0; Fin 0] = Some (Array th) /\
    supported_posterior th (one_point (Fin 0) (Fin 1) (Fin 1)) = Some NInf /\
    accepts NInf old (rand steady_rng 1) = false /\
    ln_likelihood th (one_point (Fin 0) (Fin 1) (Fin 1)) = Some new /\
    is_finite new /\
    chain st !! 1%nat = Some th /\ log_likes st !! 1%nat = Some new.
Proof.
  set (data := one_point (Fin 0) (Fin 1) (Fin 1)).
  set (th := [Fin (0 + 1 * 1); Fin (0 + 1 * 1)]).
  pose proof (ln_likelihood_unit_dy 0 0 0 1) as Hlik0.
  pose proof (ln_likelihood_unit_dy (0 + 1 * 1) (0 + 1 * 1) 0 1) as Hnew.
  fold data in Hlik0, Hnew. fold th in Hnew.
  set (v0 := -0.5 * (ln (2 * PI * (1 * 1))
                     + (1 + - (0 + 0 * 0)) / 1 * ((1 + - (0 + 0 * 0)) / 1) + 0))
    in Hlik0.
  set (v1 := -0.5 * (ln (2 * PI * (1 * 1))
                     + (1 + - (0 + 1 * 1 + (0 + 1 * 1) * 0)) / 1
                       * ((1 + - (0 + 1 * 1 + (0 + 1 * 1) * 0)) / 1) + 0))
    in Hnew.
  assert (Hl0 : supported_posterior [Fin 0; Fin 0] data = Some (Fin (0 + v0))).
  { unfold supported_posterior. decide_reals.
    unfold ln_posterior, data, one_point.
    change [Array [Fin 0]; Array [Fin 1]; Array [Fin 1]] with data.
    rewrite Hlik0. reflexivity. }
  assert (Hup : 0 + v0 <= v1) by (unfold v0, v1; lra).
  assert (Htot : is_Some (mcmc_final supported_posterior 2 2 [Fin 0; Fin 0]
                   (Scalar (Fin 1)) data steady_rng)).
  { eapply (mcmc_iter_total supported_posterior 2 2 [Fin 0; Fin 0]
              (Scalar (Fin 1)) data steady_rng 1).
    - lia.
    - reflexivity.
    - exact Hl0.
    - exact I.
    - intros t Ht. apply ln_likelihood_total; [lia|reflexivity|reflexivity].
    - simpl. lia. }
  destruct Htot as [st Hst].
  pose proof (first_pass supported_posterior 2 2 [Fin 0; Fin 0] (Scalar (Fin 1))
                data steady_rng st (Fin (0 + v0)) (Fin v1) th Hst
                ltac:(lia) eq_refl Hl0 eq_refl Hnew) as (_ & Hll0 & Hres).
  unfold rand in Hres. simpl uniform in Hres.
  rewrite (accepts_uphill v1 (0 + v0) (1 / 2) Hup (steady_draw_in_unit_interval 1))
    in Hres.
  destruct Hres as [Hc1 Hll1].
  exists st, th, (Fin (0 + v0)), (Fin v1).
  split; [exact Hst|]. split; [exact Hl0|]. split; [exact Hll0|].
  split; [reflexivity|]. split.
  { unfold supported_posterior, th. decide_reals. reflexivity. }
  split; [reflexivity|]. split; [exact Hnew|]. split; [exact I|].
  split; assumption.
Qed.

End SamplerProofs.

(** * Properties of the radial-velocity model *)

Module RadialVelocityProofs.
Import Numpy RadialVelocity NumpyFacts.

(** ** The angle of a point of the unit circle *)




(** ** The forward model, unfolded *)

Section forward.

Variable brentq : root_finder.

Lemma radial_velocity_at_unfold (T e K V omega chi : R) (rest : list R) (t : R) :
  radial_velocity_at brentq (T :: e :: K :: V :: omega :: chi :: rest) t
  = E ← compute_E_body brentq (mean_anomaly T chi t) e;
    Some (velocity_from e K V omega E).
Proof.
  unfold radial_velocity_at, radial_velocity, compute_E, np_vectorize. simpl.
  fold (mean_anomaly T chi t).
  destruct (compute_E_body brentq (mean_anomaly T chi t) e); reflexivity.
Qed.

Lemma radial_velocity_scalar (theta : list R) (t : R) :
  radial_velocity brentq (Scalar t) theta
  = v ← radial_velocity_at brentq theta t; Some (Scalar v).
Proof.
  unfold radial_velocity_at.
  destruct theta as [|T [|e [|K [|V [|omega [|chi rest]]]]]]; try reflexivity.
  unfold radial_velocity, compute_E, np_vectorize. simpl.
  destruct (compute_E_body brentq _ e); reflexivity.
Qed.

Lemma zip_with_map_same {A B C D : Type} (op : B -> C -> D)
    (f1 : A -> B) (f2 : A -> C) (l : list A) :
  zip_with op (map f1 l) (map f2 l) = map (fun x => op (f1 x) (f2 x)) l.
Proof. induction l as [|x l IH]; simpl; [reflexivity|]. rewrite IH. reflexivity. Qed.

Lemma mapM_bind_Some {A B C : Type} (f : A -> option B) (h : B -> C) (l : list A) :
  mapM (fun x => y ← f x; Some (h y)) l = ys ← mapM f l; Some (map h ys).
Proof.
  induction l as [|x l IH]; simpl; [reflexivity|].
  destruct (f x) as [y|]; simpl; [|reflexivity].
  rewrite IH. destruct (mapM f l); reflexivity.
Qed.

Lemma mapM_map {A B C : Type} (f : B -> option C) (h : A -> B) (l : list A) :
  mapM f (map h l) = mapM (fun x => f (h x)) l.
Proof.
  induction l as [|x l IH]; simpl; [reflexivity|].
  rewrite IH. reflexivity.
Qed.

(** [np.vectorize] on a non-empty array and a scalar. *)
Lemma np_vectorize_array_scalar (pyfunc : R -> R -> option R) (xs : list R) (y : R) :
  xs <> [] ->
  np_vectorize pyfunc (Array xs) (Scalar y)
  = vs ← mapM (fun x => pyfunc x y) xs; Some (Array vs).
Proof.
  intros Hne. destruct xs as [|x xs]; [contradiction|].
  unfold np_vectorize.
  change (broadcast2 pair (Array (x :: xs)) (Scalar y))
    with (Some (Array (map (fun x => (x, y)) (x :: xs)))).
  cbn [mbind option_bind map].
  change ((x, y) :: map (fun x0 => (x0, y)) xs)
    with (map (fun x0 => (x0, y)) (x :: xs)).
  rewrite mapM_map. reflexivity.
Qed.

(** On a non-empty array of times the model is the scalar model at each
    time, and raises as soon as it raises at one of them. *)
Lemma radial_velocity_array (theta : list R) (ts : list R) :
  ts <> [] ->
  radial_velocity brentq (Array ts) theta
  = vs ← mapM (radial_velocity_at brentq theta) ts; Some (Array vs).
Proof.
  intros Hne.
  destruct theta as [|T [|e [|K [|V [|omega [|chi rest]]]]]];
    try (destruct ts as [|t ts]; [contradiction|reflexivity]).
  rewrite (mapM_ext _ (fun t => E ← compute_E_body brentq (mean_anomaly T chi t) e;
                                Some (velocity_from e K V omega E)))
    by (intros t; apply radial_velocity_at_unfold).
  rewrite mapM_bind_Some.
  unfold radial_velocity, compute_E. cbn [nd_map].
  rewrite np_vectorize_array_scalar by (destruct ts; [contradiction|discriminate]).
  rewrite mapM_map. unfold mean_anomaly.
  destruct (mapM (fun x => compute_E_body brentq (2 * PI * mod1 (x / T + chi)) e) ts)
    as [Es|]; [|reflexivity].
  cbn [mbind option_bind nd_map].
  rewrite broadcast2_same_length by (rewrite !length_map; reflexivity).
  cbn [mbind option_bind nd_map].
  rewrite zip_with_map_same, !map_map. reflexivity.
Qed.

End forward.

(** ** Kepler's equation *)

Lemma kepler_at_0 (M e : R) : kepler M e 0 = - M.
Proof. unfold kepler. rewrite sin_0. ring. Qed.

Lemma kepler_at_2PI (M e : R) : kepler M e (2 * PI) = 2 * PI - M.
Proof. unfold kepler. rewrite sin_2PI. ring. Qed.

Lemma kepler_continuous (M e : R) : continuity (kepler M e).
Proof.
  unfold kepler.
  apply (continuity_minus (fun E => E - e * sin E) (fun _ => M)).
  - apply (continuity_minus (fun E => E) (fun E => e * sin E)).
    + apply derivable_continuous, derivable_id.
    + apply (continuity_mult (fun _ => e) sin).
      * apply continuity_const. intros x y. reflexivity.
      * apply continuity_sin.
  - apply continuity_const. intros x y. reflexivity.
Qed.

Lemma mean_anomaly_range (x : R) : 0 <= 2 * PI * mod1 x < 2 * PI.
Proof.
  unfold mod1. destruct (base_fp x) as [Hlo Hhi].
  pose proof PI_RGT_0. split; nra.
Qed.

Lemma kepler_bracket (M e : R) :
  0 <= M < 2 * PI -> kepler M e 0 * kepler M e (2 * PI) <= 0.
Proof. intros HM. rewrite kepler_at_0, kepler_at_2PI. nra. Qed.

Lemma Rabs_sin_le (u : R) : Rabs (sin u) <= Rabs u.
Proof.
  assert (Hpos : forall v, 0 <= v -> Rabs (sin v) <= v).
  { intros v Hv. destruct (Rle_lt_dec 1 v) as [H1|H1].
    - pose proof (SIN_bound v) as [Hl Hu]. apply Rabs_le. lra.
    - destruct Hv as [Hv|<-].
      + pose proof (sin_lt_x v Hv).
        pose proof (sin_gt_0 v Hv ltac:(pose proof PI2_1; lra)).
        apply Rabs_le. lra.
      + rewrite sin_0, Rabs_R0. lra. }
  destruct (Rle_lt_dec 0 u) as [Hu|Hu].
  - rewrite (Rabs_right u) by lra. apply Hpos, Hu.
  - rewrite <- (Rabs_Ropp (sin u)), <- sin_neg, (Rabs_left u) by lra.
    apply Hpos. lra.
Qed.

Lemma sin_lipschitz (p q : R) : Rabs (sin p - sin q) <= Rabs (p - q).
Proof.
  rewrite form4, !Rabs_mult.
  pose proof (COS_bound ((p + q) / 2)) as [Hl Hu].
  assert (Hc : Rabs (cos ((p + q) / 2)) <= 1) by (apply Rabs_le; lra).
  pose proof (Rabs_sin_le ((p - q) / 2)) as Hs.
  pose proof (Rabs_pos (sin ((p - q) / 2))).
  pose proof (Rabs_pos (cos ((p + q) / 2))).
  rewrite (Rabs_right 2) by lra.
  replace (Rabs (p - q)) with (2 * Rabs ((p - q) / 2)).
  - nra.
  - unfold Rdiv. rewrite Rabs_mult, (Rabs_right (/ 2)) by lra. field.
Qed.

(** Near a root of Kepler's equation the residual is small. *)
Lemma kepler_residual (M e x E d : R) :
  0 <= e -> kepler M e x = 0 -> Rabs (E - x) <= d ->
  Rabs (E - e * sin E - M) <= (1 + e) * d.
Proof.
  intros He Hroot Hd. unfold kepler in Hroot.
  replace (E - e * sin E - M) with ((E - x) + - (e * (sin E - sin x))) by lra.
  eapply Rle_trans; [apply Rabs_triang|].
  rewrite Rabs_Ropp, Rabs_mult, (Rabs_right e) by lra.
  pose proof (sin_lipschitz E x). pose proof (Rabs_pos (sin E - sin x)). nra.
Qed.

(** ** Bisection meets the solver contract *)

Lemma bisect_spec (n : nat) (f : R -> R) (a b : R) :
  continuity f -> a <= b -> f a * f b <= 0 ->
  a <= bisect n f a b <= b /\
  exists x : R, a <= x <= b /\ f x = 0 /\
    Rabs (bisect n f a b - x) <= (b - a) / 2 ^ (S n).
Proof.
  intros Hf. revert a b. induction n as [|n IH]; intros a b Hab Hsign.
  - simpl bisect. split; [lra|].
    destruct (IVT_cor f a b Hf Hab Hsign) as (x & Hx & Hfx).
    exists x. split; [exact Hx|]. split; [exact Hfx|].
    simpl. apply Rabs_le. lra.
  - simpl bisect.
    destruct (Rle_dec (f a * f ((a + b) / 2)) 0) as [Hl|Hr].
    + destruct (IH a ((a + b) / 2) ltac:(lra) Hl) as (Hin & x & Hx & Hfx & Hd).
      split; [lra|]. exists x. split; [lra|]. split; [exact Hfx|].
      eapply Rle_trans; [exact Hd|]. apply Req_le.
      change (2 ^ S (S n)) with (2 * 2 ^ S n).
      assert (H2 : 2 ^ S n <> 0) by (apply pow_nonzero; lra).
      field. exact H2.
    + assert (Hm : f ((a + b) / 2) * f b <= 0).
      { apply Rnot_le_lt in Hr.
        destruct (Rle_lt_dec (f ((a + b) / 2) * f b) 0) as [H|H]; [exact H|].
        exfalso. nra. }
      destruct (IH ((a + b) / 2) b ltac:(lra) Hm) as (Hin & x & Hx & Hfx & Hd).
      split; [lra|]. exists x. split; [lra|]. split; [exact Hfx|].
      eapply Rle_trans; [exact Hd|]. apply Req_le.
      change (2 ^ S (S n)) with (2 * 2 ^ S n).
      assert (H2 : 2 ^ S n <> 0) by (apply pow_nonzero; lra).
      field. exact H2.
Qed.

Lemma INR_le_pow2 (n : nat) : INR n <= 2 ^ n.
Proof.
  induction n as [|n IH].
  - simpl. lra.
  - rewrite S_INR. simpl pow.
    assert (1 <= 2 ^ n) by (apply pow_R1_Rle; lra). lra.
Qed.

Lemma bisection_contract (tol : R) : 0 < tol -> solver_contract tol (bisection tol).
Proof.
  intros Htol f a b Hf Hab Hsign.
  unfold bisection, bisection_steps.
  destruct (Rlt_dec 0 (f a * f b)) as [Hpos|_]; [lra|].
  set (n := Z.to_nat (up ((b - a) / tol))).
  destruct (bisect_spec n f a b Hf Hab Hsign) as (Hin & x & Hx & Hfx & Hd).
  exists (bisect n f a b). split; [reflexivity|]. split; [exact Hin|].
  exists x. split; [exact Hx|]. split; [exact Hfx|].
  eapply Rle_trans; [exact Hd|].
  assert (Hq : 0 <= (b - a) / tol).
  { apply Rmult_le_pos; [lra|]. left. apply Rinv_0_lt_compat. exact Htol. }
  destruct (archimed ((b - a) / tol)) as [Hup _].
  assert (Hupz : (0 <= up ((b - a) / tol))%Z).
  { apply le_IZR. lra. }
  assert (Hn : (b - a) / tol <= INR n).
  { unfold n. rewrite INR_IZR_INZ, Z2Nat.id by exact Hupz. lra. }
  pose proof (INR_le_pow2 n) as Hpow.
  assert (Hp : 0 < 2 ^ S n) by (apply pow_lt; lra).
  apply (Rmult_le_reg_r (2 ^ S n)); [exact Hp|].
  unfold Rdiv at 1. rewrite Rmult_assoc, Rinv_l, Rmult_1_r by lra.
  simpl pow.
  assert (Hba : b - a <= tol * INR n).
  { apply (Rmult_le_compat_l tol) in Hn; [|lra].
    unfold Rdiv in Hn. rewrite (Rmult_comm (b - a)), <- Rmult_assoc, Rinv_r in Hn by lra.
    lra. }
  nra.
Qed.


(** ** The solver on Kepler's equation *)

(** [np.vectorize] on two scalars. *)
Lemma compute_E_scalar (brentq : root_finder) (M e : R) :
  compute_E brentq (Scalar M) (Scalar e)
  = E ← compute_E_body brentq M e; Some (Scalar E).
Proof. reflexivity. Qed.

(** Bisection does not raise on Kepler's equation at a mean anomaly of
    line 180. *)
Lemma compute_E_body_bisection (n : nat) (x e : R) :
  compute_E_body (bisection_steps n) (2 * PI * mod1 x) e
  = Some (bisect n (kepler (2 * PI * mod1 x) e) 0 (2 * PI)).
Proof.
  unfold compute_E_body, bisection_steps.
  pose proof (kepler_bracket (2 * PI * mod1 x) e (mean_anomaly_range x)) as Hb.
  destruct (Rlt_dec 0 _) as [Hpos|_]; [lra|reflexivity].
Qed.

Lemma mod1_small (x : R) : 0 <= x < 1 -> mod1 x = x.
Proof.
  intros Hx. unfold mod1.
  destruct (Int_part_frac_part_spec x 0 x Hx ltac:(lra)) as [_ <-]. reflexivity.
Qed.

(** C6: for an eccentricity [e] in [[0, 1)] and a mean anomaly [M] in
    [[0, 2 pi)], the bracket [[0, 2 pi]] is valid, since [f(0) = -M <= 0]
    and [f(2 pi) = 2 pi - M >= 0]; and with a solver that meets its
    contract for the tolerance [tol], [compute_E(M, e)] returns a value [E]
    of [[0, 2 pi]] within [tol] of a root of Kepler's equation, so that
    [E - e sin E] differs from [M] by at most [(1 + e) tol]. *)
Theorem compute_E_solves_kepler (tol : R) (brentq : root_finder) (M e : R) :
  solver_contract tol brentq -> 0 <= e < 1 -> 0 <= M < 2 * PI ->
  (kepler M e 0 = - M /\ - M <= 0) /\
  (kepler M e (2 * PI) = 2 * PI - M /\ 0 <= 2 * PI - M) /\
  exists E : R,
    compute_E brentq (Scalar M) (Scalar e) = Some (Scalar E) /\
    0 <= E <= 2 * PI /\
    (exists x : R, 0 <= x <= 2 * PI /\ x - e * sin x = M /\ Rabs (E - x) <= tol) /\
    Rabs (E - e * sin E - M) <= (1 + e) * tol.
Proof.
  intros Hsolver He HM.
  split; [split; [apply kepler_at_0|lra]|].
  split; [split; [apply kepler_at_2PI|lra]|].
  destruct (Hsolver (kepler M e) 0 (2 * PI) (kepler_continuous M e)
              ltac:(lra) (kepler_bracket M e HM))
    as (E & HE & Hin & x & Hx & Hroot & Hd).
  exists E. rewrite compute_E_scalar. unfold compute_E_body. rewrite HE.
  split; [reflexivity|]. split; [exact Hin|]. split.
  - exists x. split; [exact Hx|]. split; [unfold kepler in Hroot; lra|exact Hd].
  - apply (kepler_residual M e x E tol); [lra|exact Hroot|exact Hd].
Qed.

(** C6 with bisection to the tolerance [1/1000], at [M = 1], [e = 0.38]. *)
Lemma compute_E_solves_kepler_witness :
  (kepler 1 0.38 0 = - 1 /\ - 1 <= 0) /\
  (kepler 1 0.38 (2 * PI) = 2 * PI - 1 /\ 0 <= 2 * PI - 1) /\
  exists E : R,
    compute_E (bisection (1 / 1000)) (Scalar 1) (Scalar 0.38) = Some (Scalar E) /\
    0 <= E <= 2 * PI /\
    (exists x : R,
       0 <= x <= 2 * PI /\ x - 0.38 * sin x = 1 /\ Rabs (E - x) <= 1 / 1000) /\
    Rabs (E - 0.38 * sin E - 1) <= (1 + 0.38) * (1 / 1000).
Proof.
  apply (compute_E_solves_kepler (1 / 1000) (bisection (1 / 1000)) 1 0.38).
  - apply bisection_contract. lra.
  - lra.
  - pose proof PI2_1. lra.
Defined.

(** ** The circular orbit *)





(** ** Sequences of times *)

(** C9, as the code has it: called on a scalar time the model returns a
    scalar; called on a non-empty sequence of times it returns the
    sequence of the values the scalar call gives at each time (and raises
    when one of the scalar calls does). *)
Theorem radial_velocity_elementwise (brentq : root_finder)
    (theta : list R) (ts : list R) :
  ts <> [] ->
  (forall t : R,
     radial_velocity brentq (Scalar t) theta
     = v ← radial_velocity_at brentq theta t; Some (Scalar v)) /\
  radial_velocity brentq (Array ts) theta
  = vs ← mapM (radial_velocity_at brentq theta) ts; Some (Array vs).
Proof.
  intros Hne. split.
  - intros t. apply radial_velocity_scalar.
  - apply radial_velocity_array. exact Hne.
Qed.

(** C9 as amended, on two times and [theta_sim]. *)
Lemma radial_velocity_elementwise_witness :
  (forall t : R,
     radial_velocity (bisection_steps 0) (Scalar t) Examples.theta_sim
     = v ← radial_velocity_at (bisection_steps 0) Examples.theta_sim t;
       Some (Scalar v)) /\
  radial_velocity (bisection_steps 0) (Array [1400; 1500]) Examples.theta_sim
  = vs ← mapM (radial_velocity_at (bisection_steps 0) Examples.theta_sim)
         [1400; 1500];
    Some (Array vs).
Proof.
  apply (radial_velocity_elementwise (bisection_steps 0) Examples.theta_sim
           [1400; 1500]).
  discriminate.
Defined.

(** C9 as stated fails on the empty sequence: [np.vectorize] refuses an
    input of size 0, so the call raises, while applying the scalar model
    to each of no elements gives the empty sequence. *)
Lemma radial_velocity_empty_sequence :
  radial_velocity (bisection_steps 0) (Array []) Examples.theta_sim = None /\
  (vs ← mapM (radial_velocity_at (bisection_steps 0) Examples.theta_sim) [];
   Some (Array vs)) = Some (Array []).
Proof. split; reflexivity. Qed.

(** ** The likelihood *)

Section likelihood.

Variable brentq : root_finder.
Variable s : R.
Variable v : R -> R.

Local Abbreviation term := (likelihood_term s v).

Lemma mapM_pointwise (theta : list R) (obs : list observation) :
  (forall o, In o obs ->
     radial_velocity_at brentq theta (obs_t o) = Some (v (obs_t o))) ->
  mapM (radial_velocity_at brentq theta) (map obs_t obs)
  = Some (map (fun o => v (obs_t o)) obs).
Proof.
  induction obs as [|o obs IH]; intros Hv; simpl; [reflexivity|].
  rewrite (Hv o) by (left; reflexivity). simpl.
  rewrite IH by (intros o' Ho'; apply Hv; right; exact Ho'). reflexivity.
Qed.

(** Line 308-311 on the arrays of a non-empty observation set. *)
Lemma log_likelihood_unfold (theta : list R) (obs : list observation) :
  theta !! 6%nat = Some s -> obs <> [] ->
  (forall o, In o obs ->
     radial_velocity_at brentq theta (obs_t o) = Some (v (obs_t o))) ->
  log_likelihood brentq theta (Array (map obs_t obs)) (Array (map obs_y obs))
    (Array (map obs_sigma obs))
  = Some (-0.5 * foldr Rplus 0 (map term obs)).
Proof.
  intros Hs Hne Hv. unfold log_likelihood. rewrite Hs. cbn [mbind option_bind].
  rewrite radial_velocity_array by (destruct obs; [contradiction|discriminate]).
  rewrite (mapM_pointwise theta obs Hv). cbn [mbind option_bind nd_map].
  rewrite broadcast2_same_length by (rewrite !length_map; reflexivity).
  cbn [mbind option_bind nd_map].
  rewrite broadcast2_same_length
    by (rewrite !length_map, length_zip_with, !length_map; lia).
  cbn [mbind option_bind nd_map].
  rewrite broadcast2_same_length
    by (rewrite !length_map, !length_zip_with, !length_map, length_zip_with,
          !length_map; lia).
  cbn [mbind option_bind nd_sum].
  rewrite (zip_with_map_same Rminus obs_y (fun o => v (obs_t o))).
  rewrite !map_map.
  rewrite (zip_with_map_same Rdiv).
  rewrite (zip_with_map_same Rplus).
  reflexivity.
Qed.

Lemma code_log_likelihood_sum (obs : list observation) :
  -0.5 * foldr Rplus 0 (map term obs) = code_log_likelihood s v obs.
Proof.
  induction obs as [|o obs IH].
  - unfold code_log_likelihood. simpl. lra.
  - change (code_log_likelihood s v (o :: obs))
      with (- (1 / 2) * term o + code_log_likelihood s v obs).
    rewrite <- IH. cbn [map foldr]. lra.
Qed.

(** The two sums differ by the constant [n/2 ln (2 pi)]. *)
Lemma code_spec_difference (obs : list observation) :
  s <> 0 ->
  code_log_likelihood s v obs
  = spec_log_likelihood s v obs + INR (length obs) / 2 * ln (2 * PI).
Proof.
  intros Hs0. induction obs as [|o obs IH].
  - unfold code_log_likelihood, spec_log_likelihood. simpl. lra.
  - change (code_log_likelihood s v (o :: obs))
      with (- (1 / 2) * (ln ((obs_sigma o) ^ 2 + s ^ 2)
                         + (obs_y o - v (obs_t o)) ^ 2
                           / ((obs_sigma o) ^ 2 + s ^ 2))
            + code_log_likelihood s v obs).
    change (spec_log_likelihood s v (o :: obs))
      with (- (1 / 2) * (ln (2 * PI * ((obs_sigma o) ^ 2 + s ^ 2))
                         + (obs_y o - v (obs_t o)) ^ 2
                           / ((obs_sigma o) ^ 2 + s ^ 2))
            + spec_log_likelihood s v obs).
    rewrite IH. change (length (o :: obs)) with (S (length obs)). rewrite S_INR.
    assert (Hpos : 0 < (obs_sigma o) ^ 2 + s ^ 2) by nra.
    rewrite (ln_mult (2 * PI)) by (try exact Hpos; pose proof PI_RGT_0; lra).
    lra.
Qed.

End likelihood.

Lemma in_range_scale (theta : list R) :
  in_range theta -> exists s : R, theta !! 6%nat = Some s /\ 0 < s.
Proof.
  unfold in_range, theta_lim. intros H.
  repeat match goal with
  | H : Forall2 _ _ (_ :: _) |- _ =>
      apply Forall2_cons_inv_r in H; destruct H as (? & ? & ? & H & ->)
  end.
  apply Forall2_nil_inv_r in H. subst.
  eexists. split; [reflexivity|]. simpl in *. lra.
Qed.

(** C8, as the code has it: for an in-range [theta] with noise scale
    [s = theta[6]] and a non-empty observation set at whose times the
    model returns the velocities [v(t_i)], the log-likelihood is the sum
    over the points of
    [-1/2 (ln (sigma_i^2 + s^2) + (y_i - v(t_i))^2 / (sigma_i^2 + s^2))]:
    there is no factor [2 pi] under the logarithm, and the value is the
    specification's sum plus [n/2 ln (2 pi)]. *)
Theorem log_likelihood_without_2pi (brentq : root_finder) (theta : list R)
    (s : R) (v : R -> R) (obs : list observation) :
  in_range theta -> theta !! 6%nat = Some s -> obs <> [] ->
  (forall o, In o obs ->
     radial_velocity_at brentq theta (obs_t o) = Some (v (obs_t o))) ->
  log_likelihood brentq theta (Array (map obs_t obs)) (Array (map obs_y obs))
    (Array (map obs_sigma obs))
  = Some (code_log_likelihood s v obs) /\
  code_log_likelihood s v obs
  = spec_log_likelihood s v obs + INR (length obs) / 2 * ln (2 * PI).
Proof.
  intros Hrange Hs Hne Hv.
  destruct (in_range_scale theta Hrange) as (s' & Hs' & Hpos).
  rewrite Hs in Hs'. injection Hs' as <-.
  split.
  - rewrite (log_likelihood_unfold brentq s v theta obs Hs Hne Hv).
    rewrite code_log_likelihood_sum. reflexivity.
  - apply code_spec_difference. lra.
Qed.

(** ** The likelihood on [theta_sim] *)

Lemma radial_velocity_at_bisection (n : nat)
    (T e K V omega chi : R) (rest : list R) (t : R) :
  radial_velocity_at (bisection_steps n)
    (T :: e :: K :: V :: omega :: chi :: rest) t
  = Some (bisection_velocity n T e K V omega chi t).
Proof.
  rewrite radial_velocity_at_unfold. unfold mean_anomaly.
  rewrite compute_E_body_bisection. reflexivity.
Qed.

Lemma theta_sim_in_range : in_range Examples.theta_sim.
Proof.
  unfold in_range, Examples.theta_sim, theta_lim.
  pose proof PI2_3_2.
  repeat (apply Forall2_cons; [simpl; lra|]). apply Forall2_nil.
Qed.

Lemma ln_2PI_pos : 0 < ln (2 * PI).
Proof.
  rewrite <- ln_1. apply ln_increasing; [lra|]. pose proof PI2_1. lra.
Qed.

(** C8 as amended, on [theta_sim] and one observation. *)
Lemma log_likelihood_without_2pi_witness :
  log_likelihood (bisection_steps 0) Examples.theta_sim
    (Array (map obs_t [Obs 1400 0 5])) (Array (map obs_y [Obs 1400 0 5]))
    (Array (map obs_sigma [Obs 1400 0 5]))
  = Some (code_log_likelihood 1 (bisection_velocity 0 700 0.38 60 12 3.10 0.67)
            [Obs 1400 0 5]) /\
  code_log_likelihood 1 (bisection_velocity 0 700 0.38 60 12 3.10 0.67)
    [Obs 1400 0 5]
  = spec_log_likelihood 1 (bisection_velocity 0 700 0.38 60 12 3.10 0.67)
      [Obs 1400 0 5]
    + INR (length [Obs 1400 0 5]) / 2 * ln (2 * PI).
Proof.
  apply (log_likelihood_without_2pi (bisection_steps 0) Examples.theta_sim 1
           (bisection_velocity 0 700 0.38 60 12 3.10 0.67) [Obs 1400 0 5]).
  - exact theta_sim_in_range.
  - reflexivity.
  - discriminate.
  - intros o _. apply radial_velocity_at_bisection.
Defined.

(** C8 as stated fails: on [theta_sim] and one observation the value of
    [log_likelihood] is not the specification's sum, which has the factor
    [2 pi] under the logarithm. *)
Lemma log_likelihood_differs_from_spec :
  in_range Examples.theta_sim /\
  radial_velocity_at (bisection_steps 0) Examples.theta_sim 1400
  = Some (bisection_velocity 0 700 0.38 60 12 3.10 0.67 1400) /\
  exists L : R,
    log_likelihood (bisection_steps 0) Examples.theta_sim
      (Array [1400]) (Array [0]) (Array [5]) = Some L /\
    L <> spec_log_likelihood 1 (bisection_velocity 0 700 0.38 60 12 3.10 0.67)
           [Obs 1400 0 5].
Proof.
  split; [exact theta_sim_in_range|].
  split; [apply radial_velocity_at_bisection|].
  exists (code_log_likelihood 1 (bisection_velocity 0 700 0.38 60 12 3.10 0.67)
            [Obs 1400 0 5]).
  split.
  - rewrite <- code_log_likelihood_sum.
    apply (log_likelihood_unfold (bisection_steps 0) 1
             (bisection_velocity 0 700 0.38 60 12 3.10 0.67)
             Examples.theta_sim [Obs 1400 0 5]).
    + reflexivity.
    + discriminate.
    + intros o _. apply radial_velocity_at_bisection.
  - rewrite code_spec_difference by lra.
    pose proof ln_2PI_pos. simpl length. simpl INR. lra.
Qed.

End RadialVelocityProofs.


(** * Further properties of the sampler notebook *)

Module SamplerExtras.
Import Float Numpy Sampler MakeData NumpyFacts SamplerProofs.

#[local] Arguments broadcast_to : simpl never.
#[local] Arguments broadcast2 : simpl never.
#[local] Arguments set_item : simpl never.
#[local] Arguments ln_likelihood : simpl never.
#[local] Arguments propose : simpl never.
#[local] Arguments accepts : simpl never.

(** ** The flat prior *)

Lemma fadd_zero_l (a : npfloat) : fadd (Fin 0) a = a.
Proof. destruct a; simpl; try reflexivity. f_equal. ring. Qed.

Lemma ln_posterior_flat (theta : list npfloat) (args : list (nd npfloat)) :
  ln_posterior theta args = ln_likelihood theta args.
Proof.
  unfold ln_posterior.
  destruct args as [|x [|y [|dy [|? ?]]]]; try reflexivity.
  destruct (ln_likelihood theta [x; y; dy]) as [l|];
    cbn [mbind option_bind]; [|reflexivity].
  unfold ln_prior. rewrite fadd_zero_l. reflexivity.
Qed.

(** X1: with the flat prior, [ln_posterior] returns what [ln_likelihood]
    returns, the infinities and [NaN] included, and raises when it raises. *)
Theorem flat_prior_posterior (theta : list npfloat) (args : list (nd npfloat)) :
  ln_posterior theta args = ln_likelihood theta args.
Proof. apply ln_posterior_flat. Qed.

(** ** The likelihood of the straight line *)

Lemma zip_with_maps {A B C D : Type} (op : B -> C -> D)
    (f1 : A -> B) (f2 : A -> C) (l : list A) :
  zip_with op (map f1 l) (map f2 l) = map (fun x => op (f1 x) (f2 x)) l.
Proof. induction l as [|x l IH]; simpl; [reflexivity|]. rewrite IH. reflexivity. Qed.

Lemma ln_likelihood_points (b m : npfloat) (rest : list npfloat) (pts : list point) :
  ln_likelihood (b :: m :: rest) (point_args pts)
  = Some (fmul (Fin (-0.5)) (fsum (map (float_term b m) pts))).
Proof.
  unfold ln_likelihood, point_args, model. simpl.
  rewrite broadcast2_same_length by (rewrite !length_map; reflexivity). simpl.
  rewrite broadcast2_same_length
    by (rewrite length_zip_with, !length_map; lia).
  simpl.
  rewrite broadcast2_same_length
    by (rewrite !length_map, !length_zip_with, !length_map; lia).
  simpl. rewrite !map_map.
  rewrite (zip_with_maps fsub). rewrite (zip_with_maps fdiv).
  rewrite map_map. rewrite (zip_with_maps fadd).
  reflexivity.
Qed.

Lemma float_term_finite (b m : R) (p : point) :
  pdy p <> 0 -> float_term (Fin b) (Fin m) p = Fin (gauss_term b m p).
Proof.
  intros Hd. unfold float_term, gauss_term. simpl.
  assert (Hpos : 0 < 2 * PI * (pdy p * pdy p)).
  { pose proof PI_RGT_0. assert (0 < pdy p * pdy p) by nra. nra. }
  destruct (Rlt_dec 0 (2 * PI * (pdy p * pdy p))) as [_|Hn]; [|contradiction].
  destruct (Req_dec_T (pdy p) 0) as [H0|_]; [contradiction|].
  simpl. f_equal. f_equal.
  - f_equal. ring.
  - field. exact Hd.
Qed.

Lemma fsum_finite (l : list R) : fsum (map Fin l) = Fin (foldr Rplus 0 l).
Proof.
  unfold fsum. induction l as [|x l IH]; simpl; [reflexivity|].
  rewrite IH. reflexivity.
Qed.

Lemma ln_likelihood_finite (b m : R) (rest : list npfloat) (pts : list point) :
  Forall (fun p => pdy p <> 0) pts ->
  ln_likelihood (Fin b :: Fin m :: rest) (point_args pts)
  = Some (Fin (-0.5 * foldr Rplus 0 (map (gauss_term b m) pts))).
Proof.
  intros Hd. rewrite ln_likelihood_points.
  rewrite (map_ext_Forall (float_term (Fin b) (Fin m))
             (fun p => Fin (gauss_term b m p))).
  - rewrite <- (map_map (gauss_term b m) Fin), fsum_finite. reflexivity.
  - eapply Forall_impl; [|exact Hd]. intros p Hp. apply float_term_finite, Hp.
Qed.

(** X2: on finite data with no zero uncertainty, at a finite intercept
    [b] and slope [m], [ln_likelihood] is the finite number
    [-1/2 sum_i (ln (2 pi dy_i^2) + ((y_i - (b + m x_i)) / dy_i)^2)]. *)
Theorem ln_likelihood_closed_form (b m : R) (rest : list npfloat)
    (pts : list point) :
  Forall (fun p => pdy p <> 0) pts ->
  ln_likelihood (Fin b :: Fin m :: rest) (point_args pts)
  = Some (Fin (-0.5 * foldr Rplus 0 (map (gauss_term b m) pts))).
Proof. apply ln_likelihood_finite. Qed.

(** X2 on two points. *)
Lemma ln_likelihood_closed_form_witness :
  ln_likelihood [Fin 2; Fin 0.5] (point_args [Point 0 2 2; Point 1 2.5 2])
  = Some (Fin (-0.5 * foldr Rplus 0
                        (map (gauss_term 2 0.5) [Point 0 2 2; Point 1 2.5 2]))).
Proof.
  apply (ln_likelihood_closed_form 2 0.5 [] [Point 0 2 2; Point 1 2.5 2]).
  repeat constructor; simpl; lra.
Defined.

Lemma gauss_sum_bound (b m : R) (pts : list point) :
  foldr Rplus 0 (map (fun p => ln (2 * PI * (pdy p) ^ 2)) pts)
  <= foldr Rplus 0 (map (gauss_term b m) pts).
Proof.
  induction pts as [|p pts IH]; cbn [map foldr]; [lra|].
  unfold gauss_term at 1.
  pose proof (pow2_ge_0 ((py p - (b + m * px p)) / pdy p)). lra.
Qed.

Lemma gauss_sum_exact (b m : R) (pts : list point) :
  Forall (fun p => py p = b + m * px p) pts ->
  foldr Rplus 0 (map (gauss_term b m) pts)
  = foldr Rplus 0 (map (fun p => ln (2 * PI * (pdy p) ^ 2)) pts).
Proof.
  induction 1 as [|p pts Hp _ IH]; cbn [map foldr]; [reflexivity|].
  rewrite IH. unfold gauss_term. rewrite Hp.
  replace (b + m * px p - (b + m * px p)) with 0 by ring.
  unfold Rdiv. rewrite Rmult_0_l. ring.
Qed.

(** X3: on such data the likelihood of a line is at most
    [-1/2 sum_i ln (2 pi dy_i^2)], and a line through every point attains
    this value. *)
Theorem ln_likelihood_maximum (b m : R) (rest : list npfloat)
    (pts : list point) :
  Forall (fun p => pdy p <> 0) pts ->
  exists v : R,
    ln_likelihood (Fin b :: Fin m :: rest) (point_args pts) = Some (Fin v) /\
    v <= -0.5 * foldr Rplus 0 (map (fun p => ln (2 * PI * (pdy p) ^ 2)) pts) /\
    (Forall (fun p => py p = b + m * px p) pts ->
     v = -0.5 * foldr Rplus 0 (map (fun p => ln (2 * PI * (pdy p) ^ 2)) pts)).
Proof.
  intros Hd. eexists. split; [apply ln_likelihood_finite, Hd|]. split.
  - pose proof (gauss_sum_bound b m pts). lra.
  - intros Hfit. rewrite (gauss_sum_exact b m pts Hfit). reflexivity.
Qed.

(** X3 on two points of the line [y = 2 + 0.5 x]. *)
Lemma ln_likelihood_maximum_witness :
  exists v : R,
    ln_likelihood [Fin 2; Fin 0.5] (point_args [Point 0 2 2; Point 1 2.5 2])
    = Some (Fin v) /\
    v <= -0.5 * foldr Rplus 0 (map (fun p => ln (2 * PI * (pdy p) ^ 2))
                                 [Point 0 2 2; Point 1 2.5 2]) /\
    (Forall (fun p => py p = 2 + 0.5 * px p) [Point 0 2 2; Point 1 2.5 2] ->
     v = -0.5 * foldr Rplus 0 (map (fun p => ln (2 * PI * (pdy p) ^ 2))
                                 [Point 0 2 2; Point 1 2.5 2])).
Proof.
  apply (ln_likelihood_maximum 2 0.5 [] [Point 0 2 2; Point 1 2.5 2]).
  repeat constructor; simpl; lra.
Defined.

Lemma float_term_zero_dy (b m : R) (p : point) :
  pdy p = 0 -> float_term (Fin b) (Fin m) p = NaN.
Proof.
  intros Hd. unfold float_term. rewrite Hd. simpl.
  destruct (Rlt_dec 0 (2 * PI * (0 * 0))) as [H|_]; [exfalso; lra|].
  destruct (Rlt_dec (2 * PI * (0 * 0)) 0) as [H|_]; [exfalso; lra|].
  destruct (Req_dec_T 0 0) as [_|H]; [|exfalso; lra].
  unfold scale_inf.
  destruct (Rlt_dec 0 _) as [_|_]; [reflexivity|].
  destruct (Rlt_dec _ 0) as [_|_]; reflexivity.
Qed.

Lemma fadd_nan_r (a : npfloat) : fadd a NaN = NaN.
Proof. destruct a; reflexivity. Qed.

Lemma fsum_nan (l : list npfloat) : In NaN l -> fsum l = NaN.
Proof.
  unfold fsum. induction l as [|x l IH]; simpl; [contradiction|].
  intros [->|Hin]; [reflexivity|]. rewrite (IH Hin). apply fadd_nan_r.
Qed.

Lemma ln_likelihood_nan (b m : R) (rest : list npfloat) (pts : list point) :
  Exists (fun p => pdy p = 0) pts ->
  ln_likelihood (Fin b :: Fin m :: rest) (point_args pts) = Some NaN.
Proof.
  intros Hex. rewrite ln_likelihood_points.
  rewrite fsum_nan; [reflexivity|].
  apply Exists_exists in Hex as (p & Hin & Hp).
  rewrite <- (float_term_zero_dy b m p Hp).
  apply in_map. exact Hin.
Qed.

(** X4: on finite data, one zero uncertainty makes the likelihood [NaN]
    at every finite intercept and slope. *)
Theorem zero_uncertainty_gives_nan (b m : R) (rest : list npfloat)
    (pts : list point) :
  Exists (fun p => pdy p = 0) pts ->
  ln_likelihood (Fin b :: Fin m :: rest) (point_args pts) = Some NaN.
Proof. apply ln_likelihood_nan. Qed.

(** X4 on two points, the second with [dy = 0]. *)
Lemma zero_uncertainty_gives_nan_witness :
  ln_likelihood [Fin 2; Fin 0.5] (point_args [Point 0 2 2; Point 1 2.5 0])
  = Some NaN.
Proof.
  apply (zero_uncertainty_gives_nan 2 0.5 [] [Point 0 2 2; Point 1 2.5 0]).
  apply Exists_cons_tl, Exists_cons_hd. reflexivity.
Defined.

Lemma ln_likelihood_none (theta : list npfloat) (args : list (nd npfloat)) :
  length args <> 3%nat \/ (length theta < 2)%nat ->
  ln_likelihood theta args = None.
Proof.
  intros H. unfold ln_likelihood.
  destruct args as [|x [|y [|dy [|? ?]]]]; try reflexivity.
  destruct H as [H|H]; [simpl in H; lia|].
  unfold model.
  destruct theta as [|b [|m rest]]; simpl in H; try lia; reflexivity.
Qed.

(** X5: [ln_likelihood] raises unless [args] holds exactly three entries
    and [theta] at least the two entries [model] reads. *)
Theorem ln_likelihood_raises (theta : list npfloat) (args : list (nd npfloat)) :
  length args <> 3%nat \/ (length theta < 2)%nat ->
  ln_likelihood theta args = None.
Proof. apply ln_likelihood_none. Qed.

(** X5 on the default [args = ()]. *)
Lemma ln_likelihood_raises_witness :
  ln_likelihood [Fin 0; Fin 1] [] = None.
Proof.
  apply (ln_likelihood_raises [Fin 0; Fin 1] []). left. simpl. lia.
Defined.

(** ** Runs of the sampler *)

Lemma accepts_stuck (new l0 r : npfloat) :
  l0 = NaN \/ l0 = PInf -> accepts new l0 r = false.
Proof.
  intros [-> | ->]; unfold accepts; destruct new; simpl; try reflexivity;
    destruct (flog r); reflexivity.
Qed.

Section runs.

Variable ln_posterior : list npfloat -> list (nd npfloat) -> option npfloat.
Variables nsteps ndim : nat.
Variable theta0 : list npfloat.
Variable stepsize : nd npfloat.
Variable args : list (nd npfloat).
Variable g : rng.

(** X6: a call with [nsteps = 0] raises: there is no row [chain[0]] to
    assign. *)
Theorem run_mcmc_zero_steps_raises :
  run_mcmc ln_posterior 0 ndim theta0 stepsize args g = None.
Proof.
  unfold run_mcmc, mcmc_final, mcmc_iter, mcmc_init.
  destruct (broadcast_to ndim (Array theta0)); reflexivity.
Qed.

(** X7: a call with two steps or more and a fitting step size raises when
    [args] does not hold exactly three entries (the default [args = ()]
    among them) or when [ndim < 2]: the first pass calls [ln_likelihood],
    which needs the three data arrays and reads [theta[1]]. *)
Theorem run_mcmc_needs_line_data :
  (2 <= nsteps)%nat -> stepsize_fits ndim stepsize ->
  length args <> 3%nat \/ (ndim < 2)%nat ->
  run_mcmc ln_posterior nsteps ndim theta0 stepsize args g = None.
Proof.
  intros Hn Hfit Hbad. unfold run_mcmc, mcmc_final, mcmc_iter.
  destruct (mcmc_init ln_posterior nsteps ndim theta0 args) as [st0|] eqn:Hinit;
    [|reflexivity].
  destruct (mcmc_init_inv _ _ _ _ _ _ Hinit)
    as (_ & Hshape & row0 & l0 & _ & _ & Hc0 & _).
  destruct (nsteps - 1)%nat as [|k] eqn:Hk; [lia|].
  cbn [seq for_range mbind option_bind].
  assert (Hstep : mcmc_step ndim stepsize args g 1 st0 = None).
  { unfold mcmc_step. cbn [Nat.sub]. rewrite Hc0. cbn [mbind option_bind].
    pose proof (shape_row _ _ _ _ _ Hshape Hc0) as Hlen.
    destruct (propose_total ndim stepsize g 1 row0 Hfit Hlen) as (th & -> & Hth).
    cbn [mbind option_bind].
    rewrite ln_likelihood_none; [reflexivity|].
    destruct Hbad as [H|H]; [left; exact H|right; lia]. }
  rewrite Hstep. reflexivity.
Qed.

(** X8: the function [ln_posterior] is called on row [0] only: two
    functions that agree there give the same result. *)
Theorem only_first_value_uses_ln_posterior
    (other : list npfloat -> list (nd npfloat) -> option npfloat) :
  (forall row, broadcast_to ndim (Array theta0) = Some row ->
     ln_posterior row args = other row args) ->
  run_mcmc ln_posterior nsteps ndim theta0 stepsize args g
  = run_mcmc other nsteps ndim theta0 stepsize args g.
Proof.
  intros Hagree. unfold run_mcmc, mcmc_final, mcmc_iter, mcmc_init.
  destruct (broadcast_to ndim (Array theta0)) as [row0|] eqn:Hrow0;
    [|reflexivity].
  cbn [mbind option_bind].
  destruct (set_item (zeros2 (Fin 0) nsteps ndim) 0 row0) as [c|] eqn:Hc;
    [|reflexivity].
  cbn [mbind option_bind].
  apply set_item_Some in Hc as [Hlt ->].
  rewrite list_lookup_insert_eq by exact Hlt. cbn [mbind option_bind].
  rewrite (Hagree row0 eq_refl). reflexivity.
Qed.

(** X9: when the first log value is [NaN] or [+inf] no candidate is ever
    taken: every row of the chain is row [0] and every log value is the
    first one. *)
Theorem chain_never_moves (st : state) (i : nat) :
  mcmc_final ln_posterior nsteps ndim theta0 stepsize args g = Some st ->
  log_likes st !! 0%nat = Some NaN \/ log_likes st !! 0%nat = Some PInf ->
  (i < nsteps)%nat ->
  chain st !! i = chain st !! 0%nat /\ log_likes st !! i = log_likes st !! 0%nat.
Proof.
  intros Hfin Hl0 Hi. induction i as [|i IH]; [split; reflexivity|].
  destruct (IH ltac:(lia)) as [IHc IHl].
  destruct (final_outcome _ _ _ _ _ _ _ st (S i) Hfin ltac:(lia))
    as (prev & th & new & old & Hprev & _ & _ & Hold & Hres).
  replace (S i - 1)%nat with i in Hprev, Hold by lia.
  rewrite accepts_stuck in Hres.
  - destruct Hres as [-> ->]. rewrite <- IHc, <- IHl, Hprev, Hold.
    split; reflexivity.
  - rewrite IHl in Hold. destruct Hl0 as [H|H]; rewrite H in Hold;
      injection Hold as <-; [left|right]; reflexivity.
Qed.

(** X10: when [ln_posterior] and [ln_likelihood] agree at [theta0], every
    log value the run ends with is the likelihood of the row beside it. *)
Theorem log_values_track_chain (st : state) (i : nat) :
  mcmc_final ln_posterior nsteps ndim theta0 stepsize args g = Some st ->
  length theta0 = ndim ->
  ln_posterior theta0 args = ln_likelihood theta0 args ->
  (i < nsteps)%nat ->
  exists row : list npfloat,
    chain st !! i = Some row /\ log_likes st !! i = ln_likelihood row args.
Proof.
  intros Hfin Hlen Hagree Hi. induction i as [|i IH].
  - unfold mcmc_final in Hfin.
    destruct (mcmc_iter_inv _ _ _ _ _ _ _ _ _ Hfin)
      as (_ & _ & (row0 & l0 & Hrow0 & Hl0 & Hc0 & Hll0) & _).
    rewrite (broadcast_to_same ndim theta0 Hlen) in Hrow0. injection Hrow0 as <-.
    exists theta0. split; [exact Hc0|]. rewrite Hll0, <- Hagree, Hl0. reflexivity.
  - destruct (IH ltac:(lia)) as (row & Hrow & Hlog).
    destruct (final_outcome _ _ _ _ _ _ _ st (S i) Hfin ltac:(lia))
      as (prev & th & new & old & Hprev & _ & Hnew & Hold & Hres).
    replace (S i - 1)%nat with i in Hprev, Hold by lia.
    destruct (accepts new old (rand g (S i))).
    + destruct Hres as [Hc Hl]. exists th. split; [exact Hc|].
      rewrite Hl, Hnew. reflexivity.
    + destruct Hres as [Hc Hl]. exists prev. split; [exact Hc|].
      rewrite Hl, <- Hold, Hlog. rewrite Hrow in Hprev. injection Hprev as ->.
      reflexivity.
Qed.

End runs.

(** ** Sample runs *)

Import Examples.

(** X7 on the notebook's call without its data. *)
Lemma run_mcmc_needs_line_data_witness :
  run_mcmc ln_posterior 3 2 [Fin 0; Fin 1] (Scalar (Fin 0.1)) [] steady_rng = None.
Proof.
  apply (run_mcmc_needs_line_data ln_posterior 3 2 [Fin 0; Fin 1]
           (Scalar (Fin 0.1)) [] steady_rng).
  - lia.
  - exact I.
  - left. simpl. lia.
Defined.

(** X8 on the notebook's call: passing [ln_likelihood] for [ln_posterior]
    changes nothing. *)
Lemma only_first_value_uses_ln_posterior_witness :
  run_mcmc ln_posterior 3 2 [Fin 0; Fin 1] (Scalar (Fin 0.1)) line_data steady_rng
  = run_mcmc ln_likelihood 3 2 [Fin 0; Fin 1] (Scalar (Fin 0.1)) line_data
      steady_rng.
Proof.
  apply (only_first_value_uses_ln_posterior ln_posterior 3 2 [Fin 0; Fin 1]
           (Scalar (Fin 0.1)) line_data steady_rng ln_likelihood).
  intros row _. apply ln_posterior_flat.
Defined.

(** A run on one data point of zero uncertainty. *)
Lemma nan_run_total :
  is_Some (mcmc_final ln_posterior 3 2 [Fin 0; Fin 0] (Scalar (Fin 1))
             (point_args [Point 0 1 0]) steady_rng).
Proof.
  eapply (mcmc_iter_total ln_posterior 3 2 [Fin 0; Fin 0] (Scalar (Fin 1))
            (point_args [Point 0 1 0]) steady_rng 2 NaN).
  - lia.
  - reflexivity.
  - rewrite ln_posterior_flat. apply ln_likelihood_nan.
    apply Exists_cons_hd. reflexivity.
  - exact I.
  - intros th Hth. apply ln_likelihood_total; [lia|reflexivity|reflexivity].
  - simpl. lia.
Qed.

(** X9 on that run, at the last row. *)
Lemma chain_never_moves_witness :
  exists st : state,
    mcmc_final ln_posterior 3 2 [Fin 0; Fin 0] (Scalar (Fin 1))
      (point_args [Point 0 1 0]) steady_rng = Some st /\
    chain st !! 2%nat = chain st !! 0%nat /\
    log_likes st !! 2%nat = log_likes st !! 0%nat.
Proof.
  destruct nan_run_total as [st Hst].
  exists st. split; [exact Hst|].
  apply (chain_never_moves ln_posterior 3 2 [Fin 0; Fin 0] (Scalar (Fin 1))
           (point_args [Point 0 1 0]) steady_rng st 2 Hst).
  - left.
    destruct (mcmc_iter_inv _ _ _ _ _ _ _ _ _ Hst)
      as (_ & _ & (row0 & l0 & Hrow0 & Hl0 & _ & Hll0) & _).
    injection Hrow0 as <-.
    rewrite ln_posterior_flat, ln_likelihood_nan in Hl0
      by (apply Exists_cons_hd; reflexivity).
    injection Hl0 as <-. exact Hll0.
  - lia.
Defined.

(** X10 on the notebook's call, at the last row. *)
Lemma log_values_track_chain_witness :
  exists st : state,
    mcmc_final ln_posterior 3 2 [Fin 0; Fin 1] (Scalar (Fin 0.1))
      line_data steady_rng = Some st /\
    exists row : list npfloat,
      chain st !! 2%nat = Some row /\
      log_likes st !! 2%nat = ln_likelihood row line_data.
Proof.
  destruct (line_run_total 2 (le_n 2)) as [st Hst].
  exists st. split; [exact Hst|].
  apply (log_values_track_chain ln_posterior 3 2 [Fin 0; Fin 1]
           (Scalar (Fin 0.1)) line_data steady_rng st 2 Hst).
  - reflexivity.
  - apply ln_posterior_flat.
  - lia.
Defined.

(** ** The synthetic data *)

Section data.

Variable np_RandomState : nat -> random_state.

Lemma make_data_points (a b dy : R) (N rseed : nat) :
  data_args (make_data np_RandomState (Fin a) (Fin b) N (Fin dy) rseed)
  = point_args (map (made_point np_RandomState a b dy rseed) (seq 0 20)).
Proof.
  unfold data_args, make_data, point_args, rs_rand, rs_randn, ones_like.
  cbn [fst snd]. rewrite !map_map.
  rewrite (zip_with_maps fadd). reflexivity.
Qed.

Lemma made_point_term (a b dy : R) (rseed j : nat) :
  dy <> 0 ->
  gauss_term a b (made_point np_RandomState a b dy rseed j)
  = ln (2 * PI * dy ^ 2) + (rs_normal (np_RandomState rseed) j) ^ 2.
Proof.
  intros Hdy. unfold gauss_term, made_point. cbn [px py pdy].
  f_equal; [f_equal; ring|]. f_equal. field. exact Hdy.
Qed.

(** X11: for every [N], the data [make_data] returns are 20 points, and
    for finite arguments with [dy <> 0] their likelihood at the intercept
    and slope they were made with is
    [-1/2 sum_(j < 20) (ln (2 pi dy^2) + z_j^2)], where [z_j] are the
    normal draws: it does not depend on the line or on the abscissas. *)
Theorem make_data_likelihood (a b dy : R) (N rseed : nat) :
  dy <> 0 ->
  (let '(x, y, dys) := make_data np_RandomState (Fin a) (Fin b) N (Fin dy) rseed in
   length x = 20%nat /\ length y = 20%nat /\ length dys = 20%nat) /\
  ln_likelihood [Fin a; Fin b]
    (data_args (make_data np_RandomState (Fin a) (Fin b) N (Fin dy) rseed))
  = Some (Fin (-0.5 * foldr Rplus 0
                        (map (fun j => ln (2 * PI * dy ^ 2)
                                       + (rs_normal (np_RandomState rseed) j) ^ 2)
                             (seq 0 20)))).
Proof.
  intros Hdy. split.
  - unfold make_data, rs_rand, rs_randn, ones_like.
    rewrite length_zip_with, !length_map, length_seq. repeat split.
  - rewrite make_data_points, ln_likelihood_finite.
    + rewrite map_map.
      rewrite (map_ext _ _ (fun j => made_point_term a b dy rseed j Hdy)).
      reflexivity.
    + apply Forall_map, Forall_forall. intros j _. cbn [pdy made_point]. lra.
Qed.

End data.

(** X11 on the notebook's call [make_data(2, 0.5)]. *)
Lemma make_data_likelihood_witness :
  (let '(x, y, dys) := make_data half_state (Fin 2) (Fin 0.5) 20 (Fin 2) 42 in
   length x = 20%nat /\ length y = 20%nat /\ length dys = 20%nat) /\
  ln_likelihood [Fin 2; Fin 0.5]
    (data_args (make_data half_state (Fin 2) (Fin 0.5) 20 (Fin 2) 42))
  = Some (Fin (-0.5 * foldr Rplus 0
                        (map (fun j => ln (2 * PI * 2 ^ 2)
                                       + (rs_normal (half_state 42) j) ^ 2)
                             (seq 0 20)))).
Proof.
  apply (make_data_likelihood half_state 2 0.5 2 20 42). lra.
Defined.

End SamplerExtras.


(** * Further properties of the radial-velocity notebook *)

Module RadialVelocityExtras.
Import Float Numpy RadialVelocity Posterior NumpyFacts RadialVelocityProofs.

(** ** The period *)






(** ** The amplitude *)





(** ** The bracket of the solver *)

Lemma radial_velocity_at_returns (brentq : root_finder)
    (T e K V omega chi : R) (rest : list R) (t : R) :
  returns_on_brackets brentq ->
  is_Some (radial_velocity_at brentq (T :: e :: K :: V :: omega :: chi :: rest) t).
Proof.
  intros Hsolve. rewrite radial_velocity_at_unfold. unfold compute_E_body.
  destruct (Hsolve (kepler (mean_anomaly T chi t) e) 0 (2 * PI)) as [E HE].
  - apply kepler_bracket. unfold mean_anomaly. apply mean_anomaly_range.
  - rewrite HE. eexists; reflexivity.
Qed.

(** X14: for [T <> 0] and an eccentricity [e >= 0] the bracket
    [[0, 2 pi]] passes the sign test of the solver at every time: with a
    solver that returns on such brackets, [radial_velocity] returns for
    every [theta] of six entries or more and every scalar or non-empty
    array of times.  (For [e < 0] the call can raise on floats: at a phase
    rounded to [1] the end value [f(2 pi)] is [- e sin (2 pi)], and the
    float sine of [2 pi] is below [0].) *)
Theorem radial_velocity_returns (brentq : root_finder)
    (T e K V omega chi : R) (rest : list R) (t : nd R) :
  returns_on_brackets brentq -> T <> 0 -> 0 <= e -> t <> Array [] ->
  is_Some (radial_velocity brentq t (T :: e :: K :: V :: omega :: chi :: rest)).
Proof.
  intros Hsolve _ _ Ht.
  destruct t as [t|ts].
  - rewrite radial_velocity_scalar.
    destruct (radial_velocity_at_returns brentq T e K V omega chi rest t Hsolve)
      as [v ->].
    eexists; reflexivity.
  - rewrite radial_velocity_array by congruence.
    destruct (mapM_is_Some_2
                (radial_velocity_at brentq (T :: e :: K :: V :: omega :: chi :: rest))
                ts) as [vs ->].
    + apply Forall_forall. intros x _. apply radial_velocity_at_returns, Hsolve.
    + eexists; reflexivity.
Qed.

Lemma bisection_steps_returns (n : nat) : returns_on_brackets (bisection_steps n).
Proof.
  intros f a b Hsign. unfold bisection_steps.
  destruct (Rlt_dec 0 (f a * f b)) as [H|_]; [lra|]. eexists; reflexivity.
Qed.

(** X14 with bisection, on a [theta] of six entries. *)
Lemma radial_velocity_returns_witness :
  is_Some (radial_velocity (bisection_steps 3) (Array [1400; 1500])
             [700; 0.38; 60; 12; 3.10; 0.67]).
Proof.
  apply (radial_velocity_returns (bisection_steps 3) 700 0.38 60 12 3.10 0.67 []
           (Array [1400; 1500])).
  - apply bisection_steps_returns.
  - lra.
  - lra.
  - discriminate.
Defined.

(** ** The root of Kepler's equation *)

(** X15: for an eccentricity [|e| < 1] and a mean anomaly in [[0, 2 pi)],
    the function [f] that [compute_E] hands to the solver has exactly one
    root, and the root lies in the bracket [[0, 2 pi]]. *)
Theorem kepler_unique_root (M e : R) :
  -1 < e < 1 -> 0 <= M < 2 * PI ->
  exists E : R,
    0 <= E <= 2 * PI /\ kepler M e E = 0 /\
    forall E' : R, kepler M e E' = 0 -> E' = E.
Proof.
  intros He HM.
  destruct (IVT_cor (kepler M e) 0 (2 * PI) (kepler_continuous M e)
              ltac:(lra) (kepler_bracket M e HM)) as (E & HE & Hroot).
  exists E. split; [exact HE|]. split; [exact Hroot|].
  intros E' Hroot'. unfold kepler in Hroot, Hroot'.
  assert (Hdiff : E' - E = e * (sin E' - sin E)) by lra.
  pose proof (sin_lipschitz E' E) as Hlip.
  assert (Habs : Rabs (E' - E) <= Rabs e * Rabs (E' - E)).
  { rewrite Hdiff at 1. rewrite Rabs_mult.
    apply Rmult_le_compat_l; [apply Rabs_pos|exact Hlip]. }
  assert (He1 : Rabs e < 1) by (apply Rabs_def1; lra).
  pose proof (Rabs_pos (E' - E)) as Hpos.
  assert (Hzero : Rabs (E' - E) = 0) by nra.
  destruct (Req_dec (E' - E) 0) as [H0|Hn0]; [lra|].
  apply Rabs_no_R0 in Hn0. contradiction.
Qed.

(** X15 at [M = 1], [e = 0.38]. *)
Lemma kepler_unique_root_witness :
  exists E : R,
    0 <= E <= 2 * PI /\ kepler 1 0.38 E = 0 /\
    forall E' : R, kepler 1 0.38 E' = 0 -> E' = E.
Proof.
  apply (kepler_unique_root 1 0.38).
  - lra.
  - pose proof PI2_1. lra.
Defined.

(** ** The prior *)

Ltac decide_bound :=
  match goal with
  | |- context [Rlt_dec ?a ?b] =>
      destruct (Rlt_dec a b); [exfalso; pose proof PI2_3_2; lra|]
  end.

Lemma log_prior_value (T e K V omega chi s : R) :
  in_range [T; e; K; V; omega; chi; s] ->
  log_prior [T; e; K; V; omega; chi; s] = Some (Fin (- (ln T + ln K + ln s))).
Proof.
  unfold in_range, theta_lim. intros H.
  repeat match goal with
  | H : Forall2 _ (_ :: _) (_ :: _) |- _ =>
      apply Forall2_cons_1 in H; destruct H as [? H]
  end.
  simpl in *.
  unfold log_prior, theta_min, theta_max, theta_lim.
  cbn [map fst snd]. rewrite !broadcast2_same_length by reflexivity.
  cbn [mbind option_bind zip_with np_any existsb]. unfold Rltb, Rgtb.
  repeat decide_bound. cbn [orb].
  repeat decide_bound. cbn [orb].
  unfold take_indices. cbn. do 2 f_equal. ring.
Qed.

(** X16: on a parameter vector within its limits [log_prior] is the
    Jeffreys prior on [T], [K] and [s]: the finite number
    [- (ln T + ln K + ln s)]. *)
Theorem log_prior_in_range (T e K V omega chi s : R) :
  in_range [T; e; K; V; omega; chi; s] ->
  log_prior [T; e; K; V; omega; chi; s] = Some (Fin (- (ln T + ln K + ln s))).
Proof. apply log_prior_value. Qed.

Lemma theta_sim_range : in_range [700; 0.38; 60; 12; 3.10; 0.67; 1].
Proof. exact theta_sim_in_range. Qed.

(** X16 on [theta_sim]. *)
Lemma log_prior_in_range_witness :
  log_prior [700; 0.38; 60; 12; 3.10; 0.67; 1]
  = Some (Fin (- (ln 700 + ln 60 + ln 1))).
Proof.
  apply (log_prior_in_range 700 0.38 60 12 3.10 0.67 1).
  exact theta_sim_range.
Defined.

(** ** The posterior *)

(** X19: on a vector within its limits and a non-empty observation set at
    whose times the model returns the velocities [v(t_i)], [log_posterior]
    is the Jeffreys prior plus the likelihood:
    [- (ln T + ln K + ln s)
     - 1/2 sum_i (ln (sigma_i^2 + s^2) + (y_i - v(t_i))^2 / (sigma_i^2 + s^2))]. *)
Theorem log_posterior_in_range (brentq : root_finder)
    (T e K V omega chi s : R) (v : R -> R) (obs : list observation) :
  in_range [T; e; K; V; omega; chi; s] -> obs <> [] ->
  (forall o, In o obs ->
     radial_velocity_at brentq [T; e; K; V; omega; chi; s] (obs_t o)
     = Some (v (obs_t o))) ->
  log_posterior brentq [T; e; K; V; omega; chi; s]
    (Array (map obs_t obs)) (Array (map obs_y obs)) (Array (map obs_sigma obs))
  = Some (Fin (- (ln T + ln K + ln s) + code_log_likelihood s v obs)).
Proof.
  intros Hrange Hne Hv. unfold log_posterior.
  rewrite (log_prior_value T e K V omega chi s Hrange).
  cbn [isinf mbind option_bind].
  rewrite (log_likelihood_unfold brentq s v [T; e; K; V; omega; chi; s] obs
             eq_refl Hne Hv).
  cbn [mbind option_bind]. rewrite code_log_likelihood_sum. reflexivity.
Qed.

(** X19 on [theta_sim] and one observation. *)
Lemma log_posterior_in_range_witness :
  log_posterior (bisection_steps 0) [700; 0.38; 60; 12; 3.10; 0.67; 1]
    (Array (map obs_t [Obs 1400 0 5])) (Array (map obs_y [Obs 1400 0 5]))
    (Array (map obs_sigma [Obs 1400 0 5]))
  = Some (Fin (- (ln 700 + ln 60 + ln 1)
               + code_log_likelihood 1
                   (bisection_velocity 0 700 0.38 60 12 3.10 0.67)
                   [Obs 1400 0 5])).
Proof.
  apply (log_posterior_in_range (bisection_steps 0) 700 0.38 60 12 3.10 0.67 1
           (bisection_velocity 0 700 0.38 60 12 3.10 0.67) [Obs 1400 0 5]).
  - exact theta_sim_range.
  - discriminate.
  - intros o _. apply radial_velocity_at_bisection.
Defined.

End RadialVelocityExtras.

(** * The prior and the posterior on float64 vectors *)

Module PosteriorFloatFacts.
Import Float Numpy RadialVelocity PosteriorFloat NumpyFacts.

#[local] Arguments fgtb : simpl never.
#[local] Arguments flog : simpl never.

(** Neither test of line 302 fires on an entry exactly when the entry is
    [NaN] or a real number within its limits. *)
Lemma no_test_fires (x : npfloat) (lim : R * R) :
  fltb x (Fin lim.1) = false /\ fgtb x (Fin lim.2) = false <-> passes x lim.
Proof.
  unfold fltb, fgtb, passes. destruct x as [r| | |].
  - destruct (Rlt_dec r lim.1), (Rlt_dec lim.2 r); split;
      try (intros [? ?]; discriminate); try (intros ?; lra);
      try (intros _; split; reflexivity).
  - split; [intros [_ ?]; discriminate|intros []].
  - split; [intros [? _]; discriminate|intros []].
  - split; [intros _; exact I|intros _; split; reflexivity].
Qed.

Lemma no_test_fires_all (theta : list npfloat) (lims : list (R * R)) :
  length theta = length lims ->
  existsb (fun b : bool => b)
    (zip_with fltb theta (map (fun lim => Fin lim.1) lims)) = false /\
  existsb (fun b : bool => b)
    (zip_with fgtb theta (map (fun lim => Fin lim.2) lims)) = false
  <-> Forall2 passes theta lims.
Proof.
  revert lims. induction theta as [|x theta IH]; intros [|lim lims] Hlen;
    try discriminate.
  - split; [intros _; apply Forall2_nil|intros _; split; reflexivity].
  - injection Hlen as Hlen. specialize (IH lims Hlen).
    cbn [map zip_with existsb]. rewrite !orb_false_iff. split.
    + intros [[Hb Hbs] [Ha Has]]. apply Forall2_cons.
      * apply no_test_fires. split; [exact Hb|exact Ha].
      * apply IH. split; [exact Hbs|exact Has].
    + intros H. apply Forall2_cons_1 in H as [Hx H].
      apply no_test_fires in Hx as [Hb Ha]. apply IH in H as [Hbs Has].
      repeat split; assumption.
Qed.

(** [log_prior] on a vector of seven entries: the two tests, then the
    three logarithms. *)
Lemma log_prior_seven (theta : list npfloat) :
  length theta = 7%nat ->
  log_prior theta
  = if existsb (fun b : bool => b) (zip_with fltb theta theta_min)
    then Some NInf
    else if existsb (fun b : bool => b) (zip_with fgtb theta theta_max)
         then Some NInf
         else sel ← take_indices theta [0; 2; 6]%nat;
              Some (fneg (fsum (map flog sel))).
Proof.
  intros Hlen. unfold log_prior.
  rewrite !broadcast2_same_length by (rewrite Hlen; reflexivity).
  reflexivity.
Qed.

Lemma log_prior_outside (theta : list npfloat) :
  length theta = 7%nat -> ~ Forall2 passes theta theta_lim ->
  log_prior theta = Some NInf.
Proof.
  intros Hlen Hout. rewrite (log_prior_seven theta Hlen).
  destruct (existsb _ (zip_with fltb _ _)) eqn:Hb; [reflexivity|].
  destruct (existsb _ (zip_with fgtb _ _)) eqn:Ha; [reflexivity|].
  exfalso. apply Hout. apply no_test_fires_all; [rewrite Hlen; reflexivity|].
  split; [exact Hb|exact Ha].
Qed.

Lemma flog_positive (r : R) : 0 < r -> flog (Fin r) = Fin (ln r).
Proof. intros Hr. unfold flog. destruct (Rlt_dec 0 r); [reflexivity|lra]. Qed.

Lemma log_prior_passing (theta : list npfloat) :
  length theta = 7%nat -> Forall2 passes theta theta_lim ->
  match theta !! 0%nat, theta !! 2%nat, theta !! 6%nat with
  | Some (Fin T), Some (Fin K), Some (Fin s) =>
      log_prior theta = Some (Fin (- (ln T + ln K + ln s)))
  | _, _, _ => log_prior theta = Some NaN
  end.
Proof.
  intros Hlen Hpass. rewrite (log_prior_seven theta Hlen).
  pose proof (proj2 (no_test_fires_all theta theta_lim
                       ltac:(rewrite Hlen; reflexivity)) Hpass) as [Hb Ha].
  fold theta_min in Hb. fold theta_max in Ha. rewrite Hb, Ha.
  destruct theta as [|x0 [|x1 [|x2 [|x3 [|x4 [|x5 [|x6 [|x7 rest]]]]]]]];
    try discriminate.
  unfold theta_lim in Hpass.
  apply Forall2_cons_1 in Hpass as [H0 Hpass].
  apply Forall2_cons_1 in Hpass as [_ Hpass].
  apply Forall2_cons_1 in Hpass as [H2 Hpass].
  apply Forall2_cons_1 in Hpass as [_ Hpass].
  apply Forall2_cons_1 in Hpass as [_ Hpass].
  apply Forall2_cons_1 in Hpass as [_ Hpass].
  apply Forall2_cons_1 in Hpass as [H6 _].
  cbn [lookup list_lookup take_indices mapM mbind option_bind mret option_ret
       map fsum foldr].
  destruct x0 as [T| | |]; try contradiction;
  destruct x2 as [K| | |]; try contradiction;
  destruct x6 as [s| | |]; try contradiction;
  simpl in H0, H2, H6;
  repeat match goal with
  | |- context [flog (Fin ?r)] => rewrite (flog_positive r) by lra
  end;
  try reflexivity.
  simpl. do 2 f_equal. ring.
Qed.

(** X17: on a float64 vector of seven entries [log_prior] returns [-inf]
    exactly when an entry is infinite or a real number outside its limits.
    A [NaN] entry passes both tests of line 302: with every other entry
    within its limits the result is the Jeffreys value
    [- (ln T + ln K + ln s)] when the [NaN] sits in [e], [V], [omega] or
    [chi], and [NaN] when it sits in [T], [K] or [s]. *)
Theorem log_prior_rejects (theta : list npfloat) :
  length theta = 7%nat ->
  (~ Forall2 passes theta theta_lim -> log_prior theta = Some NInf) /\
  (Forall2 passes theta theta_lim ->
   match theta !! 0%nat, theta !! 2%nat, theta !! 6%nat with
   | Some (Fin T), Some (Fin K), Some (Fin s) =>
       log_prior theta = Some (Fin (- (ln T + ln K + ln s)))
   | _, _, _ => log_prior theta = Some NaN
   end).
Proof.
  intros Hlen. split.
  - apply log_prior_outside. exact Hlen.
  - apply log_prior_passing. exact Hlen.
Qed.

(** X17 on [theta_sim] with [NaN] for the eccentricity. *)
Lemma log_prior_rejects_witness :
  log_prior [Fin 700; NaN; Fin 60; Fin 12; Fin 3.10; Fin 0.67; Fin 1]
  = Some (Fin (- (ln 700 + ln 60 + ln 1))).
Proof.
  destruct (log_prior_rejects
              [Fin 700; NaN; Fin 60; Fin 12; Fin 3.10; Fin 0.67; Fin 1]
              eq_refl) as [_ H].
  apply H. unfold theta_lim. pose proof PI2_3_2.
  repeat (apply Forall2_cons; [simpl; try lra; exact I|]). apply Forall2_nil.
Defined.

(** ** The posterior on a float64 vector *)

Lemma log_posterior_outside
    (log_likelihood : list npfloat -> nd R -> nd R -> nd R -> option npfloat)
    (theta : list npfloat) (t rv rv_err : nd R) :
  log_prior theta = Some NInf ->
  log_posterior log_likelihood theta t rv rv_err = Some NInf.
Proof. intros H. unfold log_posterior. rewrite H. reflexivity. Qed.

Lemma log_prior_not_inf (theta : list npfloat) :
  length theta = 7%nat -> Forall2 passes theta theta_lim ->
  exists p : npfloat, log_prior theta = Some p /\ Posterior.isinf p = false.
Proof.
  intros Hlen Hpass. pose proof (log_prior_passing theta Hlen Hpass) as H.
  destruct (theta !! 0%nat) as [[T| | |]|];
    destruct (theta !! 2%nat) as [[K| | |]|];
    destruct (theta !! 6%nat) as [[s| | |]|];
    eexists; (split; [exact H|reflexivity]).
Qed.

(** X18: on a float64 vector of seven entries with an entry that is
    infinite or a real number outside its limits, [log_posterior] returns
    [-inf] without calling the likelihood, whatever the likelihood would do
    there.  On every other vector of seven entries, also one that holds a
    [NaN], the likelihood is called and its value added to the prior. *)
Theorem log_posterior_short_circuit
    (log_likelihood : list npfloat -> nd R -> nd R -> nd R -> option npfloat)
    (theta : list npfloat) (t rv rv_err : nd R) :
  length theta = 7%nat ->
  (~ Forall2 passes theta theta_lim ->
   log_posterior log_likelihood theta t rv rv_err = Some NInf) /\
  (Forall2 passes theta theta_lim ->
   log_posterior log_likelihood theta t rv rv_err
   = ln_prior ← log_prior theta;
     l ← log_likelihood theta t rv rv_err;
     Some (fadd ln_prior l)).
Proof.
  intros Hlen. split.
  - intros Hout. apply log_posterior_outside, log_prior_outside; assumption.
  - intros Hpass.
    destruct (log_prior_not_inf theta Hlen Hpass) as (p & Hp & Hfin).
    unfold log_posterior. rewrite Hp. cbn [mbind option_bind].
    rewrite Hfin. reflexivity.
Qed.

(** X18 at an eccentricity above [1], with a solver that always raises and
    arrays of different lengths. *)
Lemma log_posterior_short_circuit_witness :
  log_posterior (finite_likelihood Posterior.failing_solver)
    [Fin 700; Fin 1.5; Fin 60; Fin 12; Fin 3.10; Fin 0.67; Fin 1]
    (Array [1400; 1500]) (Array [0; 1; 2]) (Array []) = Some NInf.
Proof.
  destruct (log_posterior_short_circuit
              (finite_likelihood Posterior.failing_solver)
              [Fin 700; Fin 1.5; Fin 60; Fin 12; Fin 3.10; Fin 0.67; Fin 1]
              (Array [1400; 1500]) (Array [0; 1; 2]) (Array []) eq_refl)
    as [H _].
  apply H. unfold theta_lim. intros Hpass.
  apply Forall2_cons_1 in Hpass as [_ Hpass].
  apply Forall2_cons_1 in Hpass as [He _].
  simpl in He. lra.
Defined.

(** ** Vectors of finite entries *)

Lemma finite_entries_Fin (theta : list R) :
  finite_entries (map Fin theta) = Some theta.
Proof.
  unfold finite_entries. induction theta as [|x theta IH]; [reflexivity|].
  cbn [map mapM]. rewrite IH. reflexivity.
Qed.

Lemma passes_in_range (theta : list R) :
  Forall2 passes (map Fin theta) theta_lim <-> in_range theta.
Proof.
  unfold in_range. generalize theta_lim. induction theta as [|x theta IH];
    intros [|lim lims]; split; intros H; try (inversion H; fail);
    try apply Forall2_nil.
  - apply Forall2_cons_1 in H as [Hx H]. apply Forall2_cons; [exact Hx|].
    apply IH. exact H.
  - apply Forall2_cons_1 in H as [Hx H]. cbn [map].
    apply Forall2_cons; [exact Hx|]. apply IH. exact H.
Qed.

(** On a vector of seven real numbers the prior on float64 vectors is the
    prior of the model on the real numbers. *)
Lemma log_prior_finite (theta : list R) :
  length theta = 7%nat ->
  log_prior (map Fin theta) = Posterior.log_prior theta.
Proof.
  destruct theta as [|x0 [|x1 [|x2 [|x3 [|x4 [|x5 [|x6 [|x7 rest]]]]]]]];
    try discriminate.
  intros _.
  unfold log_prior, Posterior.log_prior, theta_min, theta_max,
    Posterior.theta_min, Posterior.theta_max, theta_lim.
  cbn [map fst snd]. rewrite !broadcast2_same_length by reflexivity.
  cbn [mbind option_bind zip_with Posterior.np_any existsb].
  cbv [fltb fgtb Posterior.Rltb Posterior.Rgtb].
  repeat match goal with
  | |- context [Rlt_dec ?a ?b] => destruct (Rlt_dec a b); [reflexivity|]
  end.
  cbn [orb take_indices Posterior.take_indices mapM lookup list_lookup
       mbind option_bind mret option_ret map fsum foldr].
  rewrite !flog_positive by lra. reflexivity.
Qed.

(** ... and so is the posterior, with the likelihood of the model. *)
Lemma log_posterior_finite (brentq : root_finder) (theta : list R)
    (t rv rv_err : nd R) :
  length theta = 7%nat ->
  log_posterior (finite_likelihood brentq) (map Fin theta) t rv rv_err
  = Posterior.log_posterior brentq theta t rv rv_err.
Proof.
  intros Hlen. unfold log_posterior, Posterior.log_posterior.
  rewrite (log_prior_finite theta Hlen).
  destruct (Posterior.log_prior theta) as [p|]; [|reflexivity].
  cbn [mbind option_bind]. destruct (Posterior.isinf p); [reflexivity|].
  unfold finite_likelihood. rewrite finite_entries_Fin.
  cbn [mbind option_bind].
  destruct (RadialVelocity.log_likelihood brentq theta t rv rv_err);
    reflexivity.
Qed.

End PosteriorFloatFacts.

(** * Edge cases of both notebooks *)

Module EdgeCases.
Import Float Numpy Sampler RadialVelocity NumpyFacts SamplerProofs.

(** X20: a call with [nsteps = 1] evaluates no candidate: with a [theta0]
    of [ndim] entries at which [ln_posterior] returns, the result is the
    chain of the single row [theta0], for every step size and every
    [args]. *)
Theorem run_mcmc_single_step
    (ln_posterior : list npfloat -> list (nd npfloat) -> option npfloat)
    (ndim : nat) (theta0 : list npfloat) (stepsize : nd npfloat)
    (args : list (nd npfloat)) (g : rng) (l0 : npfloat) :
  length theta0 = ndim -> ln_posterior theta0 args = Some l0 ->
  run_mcmc ln_posterior 1 ndim theta0 stepsize args g = Some (PyArray2 [theta0]).
Proof.
  intros Hlen Hl0.
  unfold run_mcmc, mcmc_final, mcmc_iter, mcmc_init, zeros, zeros2.
  rewrite (broadcast_to_same ndim theta0 Hlen). cbn [mbind option_bind].
  rewrite set_item_in_range by (rewrite length_replicate; lia).
  cbn [mbind option_bind].
  rewrite list_lookup_insert_eq by (rewrite length_replicate; lia).
  cbn [mbind option_bind]. rewrite Hl0. cbn [mbind option_bind].
  rewrite set_item_in_range by (rewrite length_replicate; lia).
  reflexivity.
Qed.

(** X20 on the default [args = ()], where a second step would raise. *)
Lemma run_mcmc_single_step_witness :
  run_mcmc (fun _ _ => Some (Fin 0)) 1 2 [Fin 0; Fin 1] (Scalar (Fin 0.1)) []
    Examples.steady_rng
  = Some (PyArray2 [[Fin 0; Fin 1]]).
Proof.
  apply (run_mcmc_single_step (fun _ _ => Some (Fin 0)) 2 [Fin 0; Fin 1]
           (Scalar (Fin 0.1)) [] Examples.steady_rng (Fin 0)); reflexivity.
Defined.


End EdgeCases.
